(** * azmuth.py: two-channel EMG recorder, shallow embedding

    The development follows [src/azmuth.py]:
    - [parse_dual_channel] (the line parser),
    - [adc_to_volt] (the calibrator),
    - the body of [record_gesture]: the repetition index, the acquisition
      loop and the export of the CSV table and of the chart,
    - [main], which records every gesture of the catalog in turn.

    Conventions of the embedding.
    - A Python [int] is a [Z].  A Python [float] is an exact rational [Q]:
      the rounding of binary64 operations is not modelled.
    - A [str] is a [string] of 8-bit code points.  Below 256 the class
      [\d] of the [re] module is exactly ['0'..'9'].
    - An exception is a value of [exn]; a call that may raise returns a
      [result].
    - The outside world (clock, serial port, rendering surface, file
      system faults) is an oracle [world]; what the program changes is a
      [state] threaded through the calls.
    - The [while] loop of [record_gesture] runs on fuel: [None] means
      that the fuel did not suffice, and termination is proved from the
      clock reaching the total duration. *)

From Stdlib Require Import ZArith QArith Qround Qabs List Ascii String Lia Sorted.
From stdpp Require Import gmap strings list fin_maps.
Import ListNotations.

Local Open Scope Z_scope.

(** ** Exceptions *)

Inductive exn : Type :=
| ZeroDivisionError
| ValueError
| SerialException
| RenderError
| OSError.

Inductive result (A : Type) : Type :=
| Ok (a : A)
| Raise (e : exn).

Arguments Ok {A} a.
Arguments Raise {A} e.

(** ** Strings: the parts of [str], [re] and [int] the program uses *)

Module PyStr.

Definition code (c : ascii) : nat := nat_of_ascii c.

(** [\d] on code points below 256. *)
Definition is_digit (c : ascii) : bool :=
  (48 <=? code c)%nat && (code c <=? 57)%nat.

Definition digit_value (c : ascii) : Z := Z.of_nat (code c) - 48.

(** [str.isspace] on code points below 256: TAB..CR, FS..US, space,
    NEL and NBSP. *)
Definition is_space (c : ascii) : bool :=
  ((9 <=? code c)%nat && (code c <=? 13)%nat)
  || ((28 <=? code c)%nat && (code c <=? 32)%nat)
  || (code c =? 133)%nat || (code c =? 160)%nat.

Definition is_empty (s : string) : bool :=
  match s with EmptyString => true | String _ _ => false end.

(** Leading and trailing characters of a class removed. *)
Fixpoint lstrip_by (p : ascii -> bool) (s : string) : string :=
  match s with
  | EmptyString => EmptyString
  | String c s' => if p c then lstrip_by p s' else s
  end.

Fixpoint rstrip_by (p : ascii -> bool) (s : string) : string :=
  match s with
  | EmptyString => EmptyString
  | String c s' =>
      let r := rstrip_by p s' in
      if p c && is_empty r then EmptyString else String c r
  end.

Definition strip_by (p : ascii -> bool) (s : string) : string :=
  rstrip_by p (lstrip_by p s).

(** [s.strip()] *)
Definition strip (s : string) : string := strip_by is_space s.

(** The white space [int] skips around a literal: TAB..CR, space, NEL
    and NBSP (FS..US are not skipped, unlike in [str.strip]). *)
Definition is_int_space (c : ascii) : bool :=
  ((9 <=? code c)%nat && (code c <=? 13)%nat)
  || (code c =? 32)%nat || (code c =? 133)%nat || (code c =? 160)%nat.

(** [re.findall(r"\d+", s)]: the maximal digit runs of [s], from left
    to right.  A digit either opens a run or extends the run that the
    rest of the string starts with. *)
Definition starts_with_digit (s : string) : bool :=
  match s with
  | EmptyString => false
  | String c _ => is_digit c
  end.

Fixpoint findall_digits (s : string) : list string :=
  match s with
  | EmptyString => []
  | String c s' =>
      let rest := findall_digits s' in
      if is_digit c then
        match rest with
        | r :: rs =>
            if starts_with_digit s' then String c r :: rs
            else String c EmptyString :: rest
        | [] => [String c EmptyString]
        end
      else rest
  end.

(** The body of a base-10 literal: digits, with single underscores
    between digits.  The scan accepts or rejects the body and counts
    its digits. *)
Fixpoint scan_literal (s : string) (n : nat) (after_digit : bool) : option nat :=
  match s with
  | EmptyString => if after_digit then Some n else None
  | String c s' =>
      if is_digit c then scan_literal s' (S n) true
      else if Ascii.eqb c "_" && after_digit then scan_literal s' n false
      else None
  end.

(** The value of an accepted body: its digits in base 10, the
    underscores skipped. *)
Fixpoint literal_value (acc : Z) (s : string) : Z :=
  match s with
  | EmptyString => acc
  | String c s' =>
      if is_digit c then literal_value (10 * acc + digit_value c) s'
      else literal_value acc s'
  end.

Definition split_sign (s : string) : bool * string :=
  match s with
  | String c s' =>
      if Ascii.eqb c "-" then (true, s')
      else if Ascii.eqb c "+" then (false, s')
      else (false, s)
  | EmptyString => (false, s)
  end.

(** [sys.int_info.default_max_str_digits]: CPython refuses to convert
    a decimal literal of more digits than this with [ValueError]
    ("Exceeds the limit (4300 digits) for integer string conversion").
    The limit 0 switches the check off, as
    [sys.set_int_max_str_digits(0)] does. *)
Definition default_max_str_digits : nat := 4300.

Definition over_limit (limit n : nat) : bool :=
  (0 <? limit)%nat && (limit <? n)%nat.

(** [int(s)] for a [str] argument, with the interpreter's digit limit
    as a parameter: the literal is scanned, its number of digits is
    checked against the limit, then it is converted.
    [Raise ValueError] is Python's [ValueError]. *)
Definition int_of_str_with (limit : nat) (s : string) : result Z :=
  let '(neg, body) := split_sign (strip_by is_int_space s) in
  match scan_literal body 0 false with
  | Some n =>
      if over_limit limit n then Raise ValueError
      else
        let v := literal_value 0 body in
        Ok (if neg then - v else v)
  | None => Raise ValueError
  end.

Definition int_of_str : string -> result Z :=
  int_of_str_with default_max_str_digits.

(** *** Vocabulary for the statements *)

Fixpoint all_digits (s : string) : bool :=
  match s with
  | EmptyString => true
  | String c s' => is_digit c && all_digits s'
  end.

Fixpoint no_digits (s : string) : bool :=
  match s with
  | EmptyString => true
  | String c s' => negb (is_digit c) && no_digits s'
  end.

(** The number a digit string denotes in base 10. *)
Fixpoint decimal_from (acc : Z) (s : string) : Z :=
  match s with
  | EmptyString => acc
  | String c s' => decimal_from (10 * acc + digit_value c) s'
  end.

Definition decimal (s : string) : Z := decimal_from 0 s.

(** The number of maximal digit runs: the positions that hold a digit
    and are not preceded by one. *)
Fixpoint count_runs_from (after_digit : bool) (s : string) : nat :=
  match s with
  | EmptyString => 0
  | String c s' =>
      if is_digit c
      then (if after_digit then 0 else 1) + count_runs_from true s'
      else count_runs_from false s'
  end.

Definition count_runs (s : string) : nat := count_runs_from false s.

(** [c * n] *)
Fixpoint replicate_char (n : nat) (c : ascii) : string :=
  match n with
  | O => EmptyString
  | S n' => String c (replicate_char n' c)
  end.

End PyStr.

(** ** [parse_dual_channel] (lines 57-69) *)

(** The function returns a pair; [(None, None)] is the failure sentinel. *)
Definition sentinel : option Z * option Z := (None, None).

(** The [return] statement a call ends in. *)
Inductive parse_branch : Type :=
| BranchPair          (* line 66 *)
| BranchValueError    (* line 68: the handler of [ValueError] *)
| BranchTooFew        (* line 69 *)
| BranchUncaught.     (* an exception other than [ValueError] leaves *)

(** The function, together with the branch taken.  The handler of
    line 67 catches [ValueError] only. *)
Definition parse_dual_channel_traced (limit : nat) (line : string)
  : parse_branch * result (option Z * option Z) :=
  let nums := PyStr.findall_digits line in
  match nums with
  | n0 :: n1 :: _ =>
      match PyStr.int_of_str_with limit n0 with
      | Ok a =>
          match PyStr.int_of_str_with limit n1 with
          | Ok b => (BranchPair, Ok (Some a, Some b))
          | Raise ValueError => (BranchValueError, Ok sentinel)
          | Raise e => (BranchUncaught, Raise e)
          end
      | Raise ValueError => (BranchValueError, Ok sentinel)
      | Raise e => (BranchUncaught, Raise e)
      end
  | _ => (BranchTooFew, Ok sentinel)
  end.

Definition parse_dual_channel_with (limit : nat) (line : string)
  : result (option Z * option Z) :=
  snd (parse_dual_channel_traced limit line).

Definition parse_dual_channel : string -> result (option Z * option Z) :=
  parse_dual_channel_with PyStr.default_max_str_digits.

Definition parse_branch_of (line : string) : parse_branch :=
  fst (parse_dual_channel_traced PyStr.default_max_str_digits line).

(** ** Floats as exact rationals *)

Module PyFloat.

Definition ltb (a b : Q) : bool := negb (Qle_bool b a).
Definition geb (a b : Q) : bool := Qle_bool b a.

(** [int(x)] for a float [x]: truncation toward zero. *)
Definition to_int (x : Q) : Z := Z.quot (Qnum x) (Z.pos (Qden x)).

(** [a // b] on floats: the floor of the quotient, as a float;
    [ZeroDivisionError] when [b] is zero. *)
Definition floordiv (a b : Q) : result Q :=
  if Qeq_bool b 0 then Raise ZeroDivisionError
  else Ok (inject_Z (Qfloor (a / b))).

(** [a / b] on ints ("true division"): [ZeroDivisionError] when [b]
    is zero. *)
Definition int_truediv (a b : Z) : result Q :=
  if (b =? 0)%Z then Raise ZeroDivisionError
  else Ok (inject_Z a / inject_Z b)%Q.

(** [round(x)]: the nearest integer, ties to the even one. *)
Definition round (x : Q) : Z :=
  let f := Qfloor x in
  let r := (x - inject_Z f)%Q in
  if ltb r (1 # 2) then f
  else if ltb (1 # 2) r then f + 1
  else if Z.even f then f else f + 1.

End PyFloat.

(** ** [adc_to_volt] (lines 77-82) *)

Definition default_vref : Q := 33 # 10.
Definition default_resolution : Z := 4095.

Definition adc_to_volt (adc_value : Z) (vref : Q) (resolution : Z) : Q :=
  match PyFloat.int_truediv adc_value resolution with
  | Ok q => (q * vref)%Q
  | Raise _ => 0%Q               (* except Exception: return 0.0 *)
  end.

(** ** Configuration (lines 32-50) *)

Record config : Type := Config {
  duration_per_rep : Q;
  repetitions : Z;
  plot_update_interval : Q
}.

Definition total_duration (cfg : config) : Q :=
  (duration_per_rep cfg * inject_Z (repetitions cfg))%Q.

(** The constants of the source. *)
Definition source_config : config :=
  {| duration_per_rep := 3; repetitions := 15; plot_update_interval := 1 # 20 |}.

Definition SAVE_DIR : string := "data_raw".
Definition GRAPH_DIR : string := "graphs".

(** [GESTURES]: a dict, iterated in insertion order. *)
Definition GESTURES : list (string * string) :=
  [ ("rest", "Neutral / no message");
    ("fist", "Yes / OK");
    ("open", "No / Stop");
    ("wrist_up", "Hello / Start speaking");
    ("wrist_down", "Goodbye / End speaking");
    ("strong_fist", "Urgent / Need help") ]%string.

Fixpoint dict_get (d : list (string * string)) (k : string) (default : string)
  : string :=
  match d with
  | [] => default
  | (k', v) :: d' => if String.eqb k' k then v else dict_get d' k default
  end.

(** [os.path.join(dir, name + ext)] *)
Definition path_join (dir name ext : string) : string :=
  (dir ++ "/" ++ name ++ ext)%string.

Definition csv_path (gesture_name : string) : string :=
  path_join SAVE_DIR gesture_name ".csv".

Definition graph_path (gesture_name : string) : string :=
  path_join GRAPH_DIR gesture_name ".png".

(** ** The repetition index (lines 151-153) *)

Definition repetition_for (t duration : Q) (reps : Z) : result Z :=
  match PyFloat.floordiv t duration with
  | Raise e => Raise e
  | Ok q =>
      let rep_idx := PyFloat.to_int q + 1 in
      Ok (if rep_idx >? reps then reps else rep_idx)
  end.

(** ** The outside world and the program state *)

(** What one poll of the serial port gives (lines 140-141):
    nothing waiting, a decoded line, or an exception raised by
    [ser.in_waiting] or [ser.readline()]. *)
Inductive poll : Type :=
| NoData
| Line (raw : string)
| PortFault.

(** One row of the table (line 165). *)
Record row : Type := Row {
  ms : Z;
  adc_ch1 : Z;
  volt_ch1 : Q;
  adc_ch2 : Z;
  volt_ch2 : Q;
  rep : Z
}.

(** What the program prints. *)
Inductive msg : Type :=
| MsgGesture (gesture_name : string)          (* line 96 *)
| MsgMeaning (meaning : string)               (* line 97 *)
| MsgPrompt (gesture_name : string)           (* line 128 *)
| MsgStarting (gesture_name : string)         (* line 129 *)
| MsgRecordingRep (r : Z)                     (* lines 135, 158 *)
| MsgReadError (e : exn)                      (* line 192 *)
| MsgDone                                     (* line 195 *)
| MsgSavingAll                                (* line 196 *)
| MsgNoData                                   (* line 201 *)
| MsgSavingData (path : string)               (* line 206 *)
| MsgSavedPlot (path : string)                (* line 222 *)
| MsgConnecting                               (* line 230 *)
| MsgConnected                                (* line 235 *)
| MsgOpenFailed                               (* line 237 *)
| MsgAllComplete.                             (* line 244 *)

(** What a written file holds. *)
Inductive file : Type :=
| CsvFile (columns : list string) (table : list row)
| PngFile (xs : list Q) (ys1 ys2 : list Z) (xlim : Q).

Definition csv_columns : list string :=
  ["ms"; "adc_ch1"; "volt_ch1"; "adc_ch2"; "volt_ch2"; "rep"]%string.

(** The oracle: the values the environment returns and the faults it
    injects.  [clock n] is the result of the [n]-th call of
    [time.time()], [port n] of the [n]-th poll of the serial port,
    [draw_fault n] tells whether the [n]-th redraw raises. *)
Record world : Type := World {
  clock : nat -> Q;
  port : nat -> poll;
  draw_fault : nat -> bool;
  csv_fault : string -> bool;
  png_fault : string -> bool;
  open_fault : bool
}.

(** What the program changes outside its local variables. *)
Record state : Type := State {
  ticks : nat;                 (* calls of [time.time()] so far *)
  polls : nat;                 (* polls of the port so far *)
  draws : nat;                 (* redraws so far *)
  out : list msg;              (* printed, oldest first *)
  files : gmap string file;
  dirs : gset string;
  open_figures : nat;
  port_open : bool
}.

Definition initial_state : state :=
  {| ticks := 0; polls := 0; draws := 0; out := []; files := ∅; dirs := ∅;
     open_figures := 0; port_open := false |}.

Definition print (m : msg) (st : state) : state :=
  {| ticks := ticks st; polls := polls st; draws := draws st;
     out := out st ++ [m]; files := files st; dirs := dirs st;
     open_figures := open_figures st; port_open := port_open st |}.

Definition print_all (l : list msg) (st : state) : state :=
  fold_left (fun s m => print m s) l st.

(** The three counters. *)
Definition tick (st : state) : state :=
  {| ticks := S (ticks st); polls := polls st; draws := draws st;
     out := out st; files := files st; dirs := dirs st;
     open_figures := open_figures st; port_open := port_open st |}.

Definition polled (st : state) : state :=
  {| ticks := ticks st; polls := S (polls st); draws := draws st;
     out := out st; files := files st; dirs := dirs st;
     open_figures := open_figures st; port_open := port_open st |}.

Definition drawn (st : state) : state :=
  {| ticks := ticks st; polls := polls st; draws := S (draws st);
     out := out st; files := files st; dirs := dirs st;
     open_figures := open_figures st; port_open := port_open st |}.

(** [time.time()] *)
Definition time_time (w : world) (st : state) : Q * state :=
  (clock w (ticks st), tick st).

(** [ser.in_waiting] and [ser.readline().decode(errors="ignore")] *)
Definition poll_port (w : world) (st : state) : poll * state :=
  (port w (polls st), polled st).

(** [fig.canvas.draw(); fig.canvas.flush_events()] *)
Definition canvas_draw (w : world) (st : state) : result unit * state :=
  ((if draw_fault w (draws st) then Raise RenderError else Ok tt), drawn st).

Definition write_file (path : string) (f : file) (st : state) : state :=
  {| ticks := ticks st; polls := polls st; draws := draws st;
     out := out st; files := <[path := f]> (files st); dirs := dirs st;
     open_figures := open_figures st; port_open := port_open st |}.

(** [ensure_dirs] (lines 72-74) *)
Definition ensure_dirs (st : state) : state :=
  {| ticks := ticks st; polls := polls st; draws := draws st;
     out := out st; files := files st;
     dirs := {[SAVE_DIR]} ∪ ({[GRAPH_DIR]} ∪ dirs st);
     open_figures := open_figures st; port_open := port_open st |}.

Definition set_figures (n : nat) (st : state) : state :=
  {| ticks := ticks st; polls := polls st; draws := draws st;
     out := out st; files := files st; dirs := dirs st;
     open_figures := n; port_open := port_open st |}.

Definition set_port_open (b : bool) (st : state) : state :=
  {| ticks := ticks st; polls := polls st; draws := draws st;
     out := out st; files := files st; dirs := dirs st;
     open_figures := open_figures st; port_open := b |}.

(** The local variables of [record_gesture].  [checks] is a history
    variable: the elapsed times the loop condition has measured. *)
Record session : Type := Session {
  timestamps : list Q;
  emg1 : list Z;
  emg2 : list Z;
  rows : list row;
  overall_start : Q;
  last_plot_time : Q;
  current_rep : Z;
  line1 : list Q * list Z;
  line2 : list Q * list Z;
  checks : list Q
}.

Definition new_session (start : Q) : session :=
  {| timestamps := []; emg1 := []; emg2 := []; rows := [];
     overall_start := start; last_plot_time := 0; current_rep := 1;
     line1 := ([], []); line2 := ([], []); checks := [] |}.

Definition set_current_rep (r : Z) (l : session) : session :=
  {| timestamps := timestamps l; emg1 := emg1 l; emg2 := emg2 l; rows := rows l;
     overall_start := overall_start l; last_plot_time := last_plot_time l;
     current_rep := r; line1 := line1 l; line2 := line2 l; checks := checks l |}.

(** Lines 160-165: one element on each buffer. *)
Definition append_sample (t : Q) (ch1 ch2 : Z) (r : row) (l : session) : session :=
  {| timestamps := timestamps l ++ [t]; emg1 := emg1 l ++ [ch1];
     emg2 := emg2 l ++ [ch2]; rows := rows l ++ [r];
     overall_start := overall_start l; last_plot_time := last_plot_time l;
     current_rep := current_rep l; line1 := line1 l; line2 := line2 l;
     checks := checks l |}.

Definition set_last_plot_time (now : Q) (l : session) : session :=
  {| timestamps := timestamps l; emg1 := emg1 l; emg2 := emg2 l; rows := rows l;
     overall_start := overall_start l; last_plot_time := now;
     current_rep := current_rep l; line1 := line1 l; line2 := line2 l;
     checks := checks l |}.

(** [line1.set_data(xs, ys1); line2.set_data(xs, ys2)] on the buffers. *)
Definition set_line_data (l : session) : session :=
  {| timestamps := timestamps l; emg1 := emg1 l; emg2 := emg2 l; rows := rows l;
     overall_start := overall_start l; last_plot_time := last_plot_time l;
     current_rep := current_rep l;
     line1 := (timestamps l, emg1 l); line2 := (timestamps l, emg2 l);
     checks := checks l |}.

Definition record_check (elapsed : Q) (l : session) : session :=
  {| timestamps := timestamps l; emg1 := emg1 l; emg2 := emg2 l; rows := rows l;
     overall_start := overall_start l; last_plot_time := last_plot_time l;
     current_rep := current_rep l; line1 := line1 l; line2 := line2 l;
     checks := checks l ++ [elapsed] |}.

(** ** The acquisition loop (lines 138-193) *)

(** Lines 149-165, for a parsed line read at elapsed time [t]: the
    repetition index, the notification, the four appends.  Returns the
    new locals and what was printed. *)
Definition sample_step (cfg : config) (t : Q) (ch1 ch2 : Z) (l : session)
  : result (session * list msg) :=
  match repetition_for t (duration_per_rep cfg) (repetitions cfg) with
  | Raise e => Raise e
  | Ok rep_idx =>
      let '(l1, notes) :=
        if rep_idx =? current_rep l then (l, [])
        else (set_current_rep rep_idx l, [MsgRecordingRep rep_idx]) in
      let ms := PyFloat.to_int (t * 1000) in
      let r := {| ms := ms;
                  adc_ch1 := ch1;
                  volt_ch1 := adc_to_volt ch1 default_vref default_resolution;
                  adc_ch2 := ch2;
                  volt_ch2 := adc_to_volt ch2 default_vref default_resolution;
                  rep := rep_idx |} in
      Ok (append_sample t ch1 ch2 r l1, notes)
  end.

(** Lines 168-189: the rate-limited redraw and the short sleep. *)
Definition plot_step (w : world) (cfg : config) (l : session) (st : state)
  : session * state :=
  let '(now, st1) := time_time w st in
  if PyFloat.geb (now - last_plot_time l) (plot_update_interval cfg) then
    let l1 := match timestamps l with [] => l | _ :: _ => set_line_data l end in
    match canvas_draw w st1 with
    | (Ok _, st2) => (set_last_plot_time now l1, st2)
    | (Raise e, st2) => (l1, print (MsgReadError e) st2)   (* lines 191-192 *)
    end
  else (l, st1).

(** The body of the [while] (lines 139-193).  [continue] and the
    [except] clause both end the iteration. *)
Definition loop_body (w : world) (cfg : config) (l : session) (st : state)
  : session * state :=
  let '(p, st1) := poll_port w st in
  match p with
  | PortFault => (l, print (MsgReadError SerialException) st1)
  | NoData => plot_step w cfg l st1
  | Line raw =>
      let raw_line := PyStr.strip raw in
      if PyStr.is_empty raw_line then (l, st1)              (* continue *)
      else
        match parse_dual_channel raw_line with
        | Raise e => (l, print (MsgReadError e) st1)
        | Ok (Some ch1, Some ch2) =>
            let '(now, st2) := time_time w st1 in
            let t := (now - overall_start l)%Q in
            match sample_step cfg t ch1 ch2 l with
            | Raise e => (l, print (MsgReadError e) st2)
            | Ok (l1, notes) => plot_step w cfg l1 (print_all notes st2)
            end
        | Ok _ => (l, st1)                                    (* continue *)
        end
  end.

(** The loop condition (line 138). *)
Definition loop_cond (w : world) (cfg : config) (l : session) (st : state)
  : bool * (session * state) :=
  let '(now, st1) := time_time w st in
  let elapsed := (now - overall_start l)%Q in
  (PyFloat.ltb elapsed (total_duration cfg), (record_check elapsed l, st1)).

(** The [while] loop, at most [fuel] tests of its condition. *)
Fixpoint acquire (fuel : nat) (w : world) (cfg : config) (l : session) (st : state)
  : option (session * state) :=
  match fuel with
  | O => None
  | S fuel' =>
      let '(go, (l1, st1)) := loop_cond w cfg l st in
      if go then
        let '(l2, st2) := loop_body w cfg l1 st1 in
        acquire fuel' w cfg l2 st2
      else Some (l1, st1)
  end.

(** The locals and the state after [k] complete iterations, when the
    loop runs that long. *)
Fixpoint after_iterations (k : nat) (w : world) (cfg : config)
  (l : session) (st : state) : option (session * state) :=
  match k with
  | O => Some (l, st)
  | S k' =>
      let '(go, (l1, st1)) := loop_cond w cfg l st in
      if go then
        let '(l2, st2) := loop_body w cfg l1 st1 in
        after_iterations k' w cfg l2 st2
      else None
  end.

(** ** [record_gesture] (lines 85-226) *)

(** Lines 96-135: the header, the empty buffers, the figure, the prompt
    and the start of the clock.  The prompt and the reset of the input
    buffer of the port are taken to return. *)
Definition start_session (w : world) (gesture_name : string) (st : state)
  : session * state :=
  let st := print (MsgGesture gesture_name) st in
  let st := print (MsgMeaning (dict_get GESTURES gesture_name "N/A")) st in
  let st := set_figures (S (open_figures st)) st in        (* plt.subplots *)
  let st := print (MsgPrompt gesture_name) st in           (* input(...) *)
  let st := print (MsgStarting gesture_name) st in
  let '(start, st) := time_time w st in
  (new_session start, print (MsgRecordingRep 1) st).

(** Lines 195-222: the export.  Nothing here catches an exception: the
    first failing write ends the function, with the state as it is. *)
Definition finish (w : world) (cfg : config) (gesture_name : string)
  (l : session) (st : state) : option exn * state :=
  let st := print MsgDone st in
  let st := print MsgSavingAll st in
  let st := ensure_dirs st in
  match rows l with
  | [] => (None, print MsgNoData st)
  | _ :: _ =>
      let save_path := csv_path gesture_name in
      if csv_fault w save_path then (Some OSError, st)       (* df.to_csv raises *)
      else
        let st := write_file save_path (CsvFile csv_columns (rows l)) st in
        let st := print (MsgSavingData save_path) st in
        match timestamps l with
        | [] => (None, st)
        | _ :: _ =>
            let l := set_line_data l in
            let path := graph_path gesture_name in
            if png_fault w path then (Some OSError, st)      (* fig.savefig raises *)
            else
              let st :=
                write_file path
                  (PngFile (fst (line1 l)) (snd (line1 l)) (snd (line2 l))
                           (total_duration cfg)) st in
              (None, print (MsgSavedPlot path) st)
        end
  end.

(** The whole function.  The [finally] clause (lines 224-226) closes the
    figure whether or not the body raised; [Some e] is an exception that
    leaves the function. *)
Definition record_gesture (fuel : nat) (w : world) (cfg : config)
  (gesture_name : string) (st : state) : option (option exn * state) :=
  let '(l, st1) := start_session w gesture_name st in
  match acquire fuel w cfg l st1 with
  | None => None
  | Some (l', st2) =>
      let '(e, st3) := finish w cfg gesture_name l' st2 in
      Some (e, set_figures (pred (open_figures st3)) st3)
  end.

(** ** [main] (lines 229-250) *)

(** The [for] loop of lines 241-242: an exception ends it. *)
Fixpoint record_all (fuel : nat) (w : world) (cfg : config)
  (gestures : list string) (st : state) : option (option exn * state) :=
  match gestures with
  | [] => Some (None, st)
  | g :: gestures' =>
      match record_gesture fuel w cfg g st with
      | None => None
      | Some (Some e, st') => Some (Some e, st')
      | Some (None, st') => record_all fuel w cfg gestures' st'
      end
  end.


(** ** Vocabulary for the statements *)

(** The repetition numbers announced in a list of messages. *)
Definition rep_notifications (l : list msg) : list Z :=
  flat_map (fun m => match m with MsgRecordingRep r => [r] | _ => [] end) l.

(** The gestures whose header was printed. *)
Definition gestures_started (l : list msg) : list string :=
  flat_map (fun m => match m with MsgGesture g => [g] | _ => [] end) l.

(** A parsed sample: the elapsed time and the two channel values. *)
Definition sample : Type := Q * Z * Z.

(** The effect of one parsed sample on the locals and on what has been
    printed; an exception of [sample_step] is reported and the sample
    dropped, as the loop does. *)
Definition on_sample (cfg : config) (acc : session * list msg) (x : sample)
  : session * list msg :=
  let '(t, ch1, ch2) := x in
  match sample_step cfg t ch1 ch2 (fst acc) with
  | Ok (l', notes) => (l', snd acc ++ notes)
  | Raise e => (fst acc, snd acc ++ [MsgReadError e])
  end.

Definition feed (cfg : config) (samples : list sample) (l : session)
  : session * list msg :=
  fold_left (on_sample cfg) samples (l, []).

(** The index transitions of a sequence of repetition indices: the
    elements that differ from their predecessor ([prev] before the
    first). *)
Fixpoint transitions (prev : Z) (reps : list Z) : list Z :=
  match reps with
  | [] => []
  | r :: reps' =>
      if r =? prev then transitions r reps' else r :: transitions r reps'
  end.

(** The calibrated row of a sample, given its repetition index. *)
Definition calibrated (r : row) : Prop :=
  volt_ch1 r = adc_to_volt (adc_ch1 r) default_vref default_resolution /\
  volt_ch2 r = adc_to_volt (adc_ch2 r) default_vref default_resolution.

(** The four buffers hold the same samples. *)
Definition buffers_aligned (l : session) : Prop :=
  length (timestamps l) = length (rows l) /\
  length (emg1 l) = length (rows l) /\
  length (emg2 l) = length (rows l).


(** The file a run left at [path]. *)
Definition written (r : option (option exn * state)) (path : string)
  : option file :=
  match r with
  | Some (_, st) => files st !! path
  | None => None
  end.

Definition table_of (f : option file) : list row :=
  match f with
  | Some (CsvFile _ table) => table
  | _ => []
  end.


(** ** Concrete worlds *)

Definition clock_of_list (readings : list Q) (later : Q) : nat -> Q :=
  fun n => nth n readings later.

Definition port_of_list (events : list poll) : nat -> poll :=
  fun n => nth n events NoData.

(** No fault anywhere. *)
Definition quiet_world (readings : list Q) (later : Q) (events : list poll) : world :=
  {| clock := clock_of_list readings later;
     port := port_of_list events;
     draw_fault := fun _ => false;
     csv_fault := fun _ => false;
     png_fault := fun _ => false;
     open_fault := false |}.

(** Two repetitions of three seconds. *)
Definition scenario_config : config :=
  {| duration_per_rep := 3; repetitions := 2; plot_update_interval := 1 # 20 |}.

(** The line "100,200" read at 0.5 s, 3.5 s and 5.9 s.  The clock starts
    at 0; each iteration reads it for the loop condition, for the sample
    and for the redraw. *)
Definition scenario_world : world :=
  quiet_world
    [0; 2 # 5; 1 # 2; 3 # 5;
        17 # 5; 7 # 2; 18 # 5;
        29 # 5; 59 # 10; 119 # 20]%Q
    6
    [Line "100,200"; Line "100,200"; Line "100,200"].

Definition scenario_samples : list sample :=
  [((1 # 2)%Q, 100, 200); ((7 # 2)%Q, 100, 200); ((59 # 10)%Q, 100, 200)].

(** ** Vocabulary for the parser *)

(** [line] is [pre ++ r1 ++ mid ++ r2 ++ rest] where [r1] and [r2] are
    its first two maximal digit runs: no digit before [r1] or between
    the runs, and no digit right after [r2]. *)
Definition first_two_runs (line pre r1 mid r2 rest : string) : Prop :=
  line = (pre ++ r1 ++ mid ++ r2 ++ rest)%string
  /\ PyStr.no_digits pre = true
  /\ PyStr.all_digits r1 = true /\ r1 <> EmptyString
  /\ PyStr.no_digits mid = true /\ mid <> EmptyString
  /\ PyStr.all_digits r2 = true /\ r2 <> EmptyString
  /\ PyStr.starts_with_digit rest = false.

(** A run of 4301 digits, then ",2". *)
Definition long_run : string := PyStr.replicate_char 4301 "1".
Definition long_line : string := (long_run ++ ",2")%string.

(** ** Vocabulary for the session *)

Definition sample_time (x : sample) : Q := fst (fst x).

(** The samples the three deques hold. *)
Definition buffered (l : session) : list sample :=
  combine (combine (timestamps l) (emg1 l)) (emg2 l).

(** The repetition index as a total function (0 where the division
    raises). *)
Definition rep_index (cfg : config) (t : Q) : Z :=
  match repetition_for t (duration_per_rep cfg) (repetitions cfg) with
  | Ok r => r
  | Raise _ => 0
  end.

(** The row line 165 builds for a sample. *)
Definition row_of_sample (cfg : config) (x : sample) : row :=
  let '(t, ch1, ch2) := x in
  {| ms := PyFloat.to_int (t * 1000);
     adc_ch1 := ch1;
     volt_ch1 := adc_to_volt ch1 default_vref default_resolution;
     adc_ch2 := ch2;
     volt_ch2 := adc_to_volt ch2 default_vref default_resolution;
     rep := rep_index cfg t |}.

(** What holds of the locals between two statements of the loop, when
    [announced] are the repetition changes printed so far. *)
Definition session_inv (cfg : config) (l : session) (announced : list Z) : Prop :=
  length (emg1 l) = length (timestamps l)
  /\ length (emg2 l) = length (timestamps l)
  /\ rows l = map (row_of_sample cfg) (buffered l)
  /\ current_rep l = List.last (map rep (rows l)) 1
  /\ announced = transitions 1 (map rep (rows l)).

(** The elapsed times the loop condition measured: all below the total
    duration, except the last one. *)
Definition exits_at_first_timeout (cfg : config) (measured : list Q) : Prop :=
  exists early final,
    measured = early ++ [final]
    /\ Forall (fun e => (e < total_duration cfg)%Q) early
    /\ (total_duration cfg <= final)%Q.

(** The buffers, the repetition and the start time are those of [l]. *)
Definition same_buffers (l l' : session) : Prop :=
  timestamps l' = timestamps l /\ emg1 l' = emg1 l /\ emg2 l' = emg2 l
  /\ rows l' = rows l /\ current_rep l' = current_rep l
  /\ overall_start l' = overall_start l.

(** Nothing written, opened or closed between [st] and [st']; the clock
    may have been read. *)
Definition same_outside (st st' : state) : Prop :=
  files st' = files st /\ dirs st' = dirs st
  /\ open_figures st' = open_figures st /\ port_open st' = port_open st
  /\ (ticks st <= ticks st')%nat
  /\ gestures_started (out st') = gestures_started (out st).

(** The invariant of the loop: the start time is [start], and the
    repetition changes printed since [base] are those of the rows. *)
Definition loop_inv (cfg : config) (start : Q) (base : list Z)
  (l : session) (st : state) : Prop :=
  overall_start l = start
  /\ exists announced,
       rep_notifications (out st) = base ++ announced
       /\ session_inv cfg l announced.

(** Every timestamp is a clock reading already made, in reading order. *)
Definition timed_by_clock (w : world) (l : session) (st : state) : Prop :=
  exists ks : list nat,
    timestamps l = map (fun k => (clock w k - overall_start l)%Q) ks
    /\ StronglySorted lt ks
    /\ Forall (fun k => (k < ticks st)%nat) ks.

(** One sample, read 1/1024 s after the start; the next test of the
    loop condition is past the 45 s. *)
Definition truncation_world : world :=
  quiet_world [0; 0; 1 # 1024; 1 # 1024]%Q 45 [Line "1,2"].

(** A clock for whole runs: the first session gets one sample at 2 s,
    and from the fifth reading on every reading is 50 s after the one
    before. *)
Definition run_clock (n : nat) : Q :=
  match n with
  | 0%nat => 0
  | 1%nat => 1
  | 2%nat => 2
  | 3%nat => 3
  | _ => inject_Z (50 * Z.of_nat n)
  end.

Definition run_world (csv_fails png_fails : string -> bool) : world :=
  {| clock := run_clock;
     port := port_of_list [Line "512,478"];
     draw_fault := fun _ => false;
     csv_fault := csv_fails;
     png_fault := png_fails;
     open_fault := false |}.




(** ** Vocabulary for further properties *)

(** The channel values a poll contributes to the buffers: those of a
    non-empty line that parses to a pair (lines 140-147). *)
Definition parsed_of (p : poll) : option (Z * Z) :=
  match p with
  | Line raw =>
      let raw_line := PyStr.strip raw in
      if PyStr.is_empty raw_line then None
      else
        match parse_dual_channel raw_line with
        | Ok (Some ch1, Some ch2) => Some (ch1, ch2)
        | _ => None
        end
  | _ => None
  end.

Definition channels (x : sample) : Z * Z := (snd (fst x), snd x).

(** The polls number [from], [from + 1], ..., [n] of them. *)
Definition polls_from (w : world) (from n : nat) : list poll :=
  map (port w) (seq from n).

(** What the two plotted lines hold is an initial part of the buffers:
    the same x for both lines, as many y as x. *)
Definition snapshot_inv (l : session) : Prop :=
  fst (line1 l) = fst (line2 l)
  /\ fst (line1 l) `prefix_of` timestamps l
  /\ snd (line1 l) `prefix_of` emg1 l
  /\ snd (line2 l) `prefix_of` emg2 l
  /\ length (snd (line1 l)) = length (fst (line1 l))
  /\ length (snd (line2 l)) = length (fst (line2 l)).

(** A line with signs and a decimal point. *)
Definition signed_line : string := "-5.25, -6".

(** A clock that advances one second per reading, and a port that has
    a line at every poll. *)
Definition steady_world : world :=
  {| clock := fun n => inject_Z (Z.of_nat n);
     port := fun _ => Line "512,478";
     draw_fault := fun _ => false;
     csv_fault := fun _ => false;
     png_fault := fun _ => false;
     open_fault := false |}.

(** The buffers hold the parsed polls made since poll number [p0]. *)
Definition parsed_inv (w : world) (cfg : config) (p0 : nat)
  (l : session) (st : state) : Prop :=
  (p0 <= polls st)%nat
  /\ (exists announced, session_inv cfg l announced)
  /\ map channels (buffered l)
     = omap parsed_of (polls_from w p0 (polls st - p0)).




(** The plotted lines are a snapshot of buffers of equal lengths. *)
Definition plot_inv (cfg : config) (l : session) : Prop :=
  snapshot_inv l /\ exists announced, session_inv cfg l announced.

(** The session started at clock reading [k0], when [d0] redraws had
    been made; since then the redraws are an interval apart. *)
Definition redraw_inv (w : world) (cfg : config) (k0 d0 : nat)
  (l : session) (st : state) : Prop :=
  (k0 <= ticks st)%nat
  /\ ((draws st = d0 /\ last_plot_time l = 0%Q)
      \/ ((d0 < draws st)%nat
          /\ (exists k, (k0 <= k < ticks st)%nat /\ last_plot_time l = clock w k)
          /\ ((inject_Z (Z.of_nat (draws st - d0)) - 1) * plot_update_interval cfg
              <= last_plot_time l - clock w k0)%Q)).

(** At the head of the loop: one test of the condition and one poll
    per iteration so far, and at most one redraw. *)
Definition count_inv (p0 d0 : nat) (l : session) (st : state) : Prop :=
  (p0 <= polls st)%nat /\ length (checks l) = (polls st - p0)%nat
  /\ (d0 <= draws st)%nat /\ (draws st - d0 <= polls st - p0)%nat.

(** * Properties *)

(** ** Projections of the state updates *)

Lemma ticks_print (m : msg) (st : state) : ticks (print m st) = ticks st.
Proof. reflexivity. Qed.

Lemma polls_print (m : msg) (st : state) : polls (print m st) = polls st.
Proof. reflexivity. Qed.

Lemma draws_print (m : msg) (st : state) : draws (print m st) = draws st.
Proof. reflexivity. Qed.

Lemma out_print (m : msg) (st : state) : out (print m st) = out st ++ [m].
Proof. reflexivity. Qed.

Lemma files_print (m : msg) (st : state) : files (print m st) = files st.
Proof. reflexivity. Qed.

Lemma dirs_print (m : msg) (st : state) : dirs (print m st) = dirs st.
Proof. reflexivity. Qed.

Lemma open_figures_print (m : msg) (st : state) : open_figures (print m st) = open_figures st.
Proof. reflexivity. Qed.

Lemma port_open_print (m : msg) (st : state) : port_open (print m st) = port_open st.
Proof. reflexivity. Qed.

Lemma ticks_tick (st : state) : ticks (tick st) = S (ticks st).
Proof. reflexivity. Qed.

Lemma polls_tick (st : state) : polls (tick st) = polls st.
Proof. reflexivity. Qed.

Lemma draws_tick (st : state) : draws (tick st) = draws st.
Proof. reflexivity. Qed.

Lemma out_tick (st : state) : out (tick st) = out st.
Proof. reflexivity. Qed.

Lemma files_tick (st : state) : files (tick st) = files st.
Proof. reflexivity. Qed.

Lemma dirs_tick (st : state) : dirs (tick st) = dirs st.
Proof. reflexivity. Qed.

Lemma open_figures_tick (st : state) : open_figures (tick st) = open_figures st.
Proof. reflexivity. Qed.

Lemma port_open_tick (st : state) : port_open (tick st) = port_open st.
Proof. reflexivity. Qed.

Lemma ticks_polled (st : state) : ticks (polled st) = ticks st.
Proof. reflexivity. Qed.

Lemma polls_polled (st : state) : polls (polled st) = S (polls st).
Proof. reflexivity. Qed.

Lemma draws_polled (st : state) : draws (polled st) = draws st.
Proof. reflexivity. Qed.

Lemma out_polled (st : state) : out (polled st) = out st.
Proof. reflexivity. Qed.

Lemma files_polled (st : state) : files (polled st) = files st.
Proof. reflexivity. Qed.

Lemma dirs_polled (st : state) : dirs (polled st) = dirs st.
Proof. reflexivity. Qed.

Lemma open_figures_polled (st : state) : open_figures (polled st) = open_figures st.
Proof. reflexivity. Qed.

Lemma port_open_polled (st : state) : port_open (polled st) = port_open st.
Proof. reflexivity. Qed.

Lemma ticks_drawn (st : state) : ticks (drawn st) = ticks st.
Proof. reflexivity. Qed.

Lemma polls_drawn (st : state) : polls (drawn st) = polls st.
Proof. reflexivity. Qed.

Lemma draws_drawn (st : state) : draws (drawn st) = S (draws st).
Proof. reflexivity. Qed.

Lemma out_drawn (st : state) : out (drawn st) = out st.
Proof. reflexivity. Qed.

Lemma files_drawn (st : state) : files (drawn st) = files st.
Proof. reflexivity. Qed.

Lemma dirs_drawn (st : state) : dirs (drawn st) = dirs st.
Proof. reflexivity. Qed.

Lemma open_figures_drawn (st : state) : open_figures (drawn st) = open_figures st.
Proof. reflexivity. Qed.

Lemma port_open_drawn (st : state) : port_open (drawn st) = port_open st.
Proof. reflexivity. Qed.

Lemma ticks_write_file (path : string) (f : file) (st : state) : ticks (write_file path f st) = ticks st.
Proof. reflexivity. Qed.

Lemma polls_write_file (path : string) (f : file) (st : state) : polls (write_file path f st) = polls st.
Proof. reflexivity. Qed.

Lemma draws_write_file (path : string) (f : file) (st : state) : draws (write_file path f st) = draws st.
Proof. reflexivity. Qed.

Lemma out_write_file (path : string) (f : file) (st : state) : out (write_file path f st) = out st.
Proof. reflexivity. Qed.

Lemma files_write_file (path : string) (f : file) (st : state) : files (write_file path f st) = <[path := f]> (files st).
Proof. reflexivity. Qed.

Lemma dirs_write_file (path : string) (f : file) (st : state) : dirs (write_file path f st) = dirs st.
Proof. reflexivity. Qed.

Lemma open_figures_write_file (path : string) (f : file) (st : state) : open_figures (write_file path f st) = open_figures st.
Proof. reflexivity. Qed.

Lemma port_open_write_file (path : string) (f : file) (st : state) : port_open (write_file path f st) = port_open st.
Proof. reflexivity. Qed.

Lemma ticks_ensure_dirs (st : state) : ticks (ensure_dirs st) = ticks st.
Proof. reflexivity. Qed.

Lemma polls_ensure_dirs (st : state) : polls (ensure_dirs st) = polls st.
Proof. reflexivity. Qed.

Lemma draws_ensure_dirs (st : state) : draws (ensure_dirs st) = draws st.
Proof. reflexivity. Qed.

Lemma out_ensure_dirs (st : state) : out (ensure_dirs st) = out st.
Proof. reflexivity. Qed.

Lemma files_ensure_dirs (st : state) : files (ensure_dirs st) = files st.
Proof. reflexivity. Qed.

Lemma dirs_ensure_dirs (st : state) : dirs (ensure_dirs st) = {[SAVE_DIR]} ∪ ({[GRAPH_DIR]} ∪ dirs st).
Proof. reflexivity. Qed.

Lemma open_figures_ensure_dirs (st : state) : open_figures (ensure_dirs st) = open_figures st.
Proof. reflexivity. Qed.

Lemma port_open_ensure_dirs (st : state) : port_open (ensure_dirs st) = port_open st.
Proof. reflexivity. Qed.

Lemma ticks_set_figures (n : nat) (st : state) : ticks (set_figures n st) = ticks st.
Proof. reflexivity. Qed.

Lemma polls_set_figures (n : nat) (st : state) : polls (set_figures n st) = polls st.
Proof. reflexivity. Qed.

Lemma draws_set_figures (n : nat) (st : state) : draws (set_figures n st) = draws st.
Proof. reflexivity. Qed.

Lemma out_set_figures (n : nat) (st : state) : out (set_figures n st) = out st.
Proof. reflexivity. Qed.

Lemma files_set_figures (n : nat) (st : state) : files (set_figures n st) = files st.
Proof. reflexivity. Qed.

Lemma dirs_set_figures (n : nat) (st : state) : dirs (set_figures n st) = dirs st.
Proof. reflexivity. Qed.

Lemma open_figures_set_figures (n : nat) (st : state) : open_figures (set_figures n st) = n.
Proof. reflexivity. Qed.

Lemma port_open_set_figures (n : nat) (st : state) : port_open (set_figures n st) = port_open st.
Proof. reflexivity. Qed.

Lemma ticks_set_port_open (b : bool) (st : state) : ticks (set_port_open b st) = ticks st.
Proof. reflexivity. Qed.

Lemma polls_set_port_open (b : bool) (st : state) : polls (set_port_open b st) = polls st.
Proof. reflexivity. Qed.

Lemma draws_set_port_open (b : bool) (st : state) : draws (set_port_open b st) = draws st.
Proof. reflexivity. Qed.

Lemma out_set_port_open (b : bool) (st : state) : out (set_port_open b st) = out st.
Proof. reflexivity. Qed.

Lemma files_set_port_open (b : bool) (st : state) : files (set_port_open b st) = files st.
Proof. reflexivity. Qed.

Lemma dirs_set_port_open (b : bool) (st : state) : dirs (set_port_open b st) = dirs st.
Proof. reflexivity. Qed.

Lemma open_figures_set_port_open (b : bool) (st : state) : open_figures (set_port_open b st) = open_figures st.
Proof. reflexivity. Qed.

Lemma port_open_set_port_open (b : bool) (st : state) : port_open (set_port_open b st) = b.
Proof. reflexivity. Qed.

Create Rewrite HintDb state_proj.
#[export] Hint Rewrite ticks_print polls_print draws_print out_print : state_proj.
#[export] Hint Rewrite files_print dirs_print open_figures_print port_open_print : state_proj.
#[export] Hint Rewrite ticks_tick polls_tick draws_tick out_tick : state_proj.
#[export] Hint Rewrite files_tick dirs_tick open_figures_tick port_open_tick : state_proj.
#[export] Hint Rewrite ticks_polled polls_polled draws_polled out_polled : state_proj.
#[export] Hint Rewrite files_polled dirs_polled open_figures_polled port_open_polled : state_proj.
#[export] Hint Rewrite ticks_drawn polls_drawn draws_drawn out_drawn : state_proj.
#[export] Hint Rewrite files_drawn dirs_drawn open_figures_drawn port_open_drawn : state_proj.
#[export] Hint Rewrite ticks_write_file polls_write_file draws_write_file out_write_file : state_proj.
#[export] Hint Rewrite files_write_file dirs_write_file open_figures_write_file port_open_write_file : state_proj.
#[export] Hint Rewrite ticks_ensure_dirs polls_ensure_dirs draws_ensure_dirs out_ensure_dirs : state_proj.
#[export] Hint Rewrite files_ensure_dirs dirs_ensure_dirs open_figures_ensure_dirs port_open_ensure_dirs : state_proj.
#[export] Hint Rewrite ticks_set_figures polls_set_figures draws_set_figures out_set_figures : state_proj.
#[export] Hint Rewrite files_set_figures dirs_set_figures open_figures_set_figures port_open_set_figures : state_proj.
#[export] Hint Rewrite ticks_set_port_open polls_set_port_open draws_set_port_open out_set_port_open : state_proj.
#[export] Hint Rewrite files_set_port_open dirs_set_port_open open_figures_set_port_open port_open_set_port_open : state_proj.

Ltac state_proj := autorewrite with state_proj.

(** ** Arithmetic of the float model *)

Lemma to_int_inject_Z (z : Z) : PyFloat.to_int (inject_Z z) = z.
Proof. unfold PyFloat.to_int; simpl. apply Z.quot_1_r. Qed.

Lemma to_int_nonneg (x : Q) : (0 <= x)%Q -> PyFloat.to_int x = Qfloor x.
Proof.
  destruct x as [n d]. unfold Qle, PyFloat.to_int, Qfloor; simpl.
  intros H. apply Z.quot_div_nonneg; lia.
Qed.

Lemma floordiv_pos (a b : Q) :
  (0 < b)%Q -> PyFloat.floordiv a b = Ok (inject_Z (Qfloor (a / b))).
Proof.
  intros Hb. unfold PyFloat.floordiv.
  destruct (Qeq_bool b 0) eqn:E; [|reflexivity].
  apply Qeq_bool_iff in E. rewrite E in Hb. exfalso. revert Hb. apply Qlt_irrefl.
Qed.

Lemma ltb_lt (a b : Q) : PyFloat.ltb a b = true <-> (a < b)%Q.
Proof.
  unfold PyFloat.ltb. rewrite negb_true_iff.
  split; intros H.
  - apply Qnot_le_lt. intros Hle. apply Qle_bool_iff in Hle. congruence.
  - destruct (Qle_bool b a) eqn:E; [|reflexivity].
    apply Qle_bool_iff in E. exfalso. apply (Qlt_not_le _ _ H E).
Qed.

Lemma ltb_ge (a b : Q) : PyFloat.ltb a b = false <-> (b <= a)%Q.
Proof.
  unfold PyFloat.ltb. rewrite negb_false_iff. apply Qle_bool_iff.
Qed.

Lemma repetition_for_pos (t d : Q) (reps : Z) :
  (0 < d)%Q ->
  repetition_for t d reps = Ok (Z.min (Qfloor (t / d) + 1) reps).
Proof.
  intros Hd. unfold repetition_for. rewrite (floordiv_pos _ _ Hd).
  rewrite to_int_inject_Z. f_equal.
  destruct (Z.gtb_spec (Qfloor (t / d) + 1) reps); lia.
Qed.

Lemma Qdiv_le_mono (a b d : Q) : (0 < d)%Q -> (a <= b)%Q -> (a / d <= b / d)%Q.
Proof.
  intros Hd Hab. unfold Qdiv. apply Qmult_le_compat_r; [exact Hab|].
  apply Qlt_le_weak, Qinv_lt_0_compat, Hd.
Qed.

Lemma Qfloor_div_nonneg (t d : Q) : (0 <= t)%Q -> (0 < d)%Q -> 0 <= Qfloor (t / d).
Proof.
  intros Ht Hd.
  change 0 with (Qfloor 0). apply Qfloor_resp_le.
  apply Qle_shift_div_l; [exact Hd|].
  rewrite Qmult_0_l. exact Ht.
Qed.

(** ** The repetition index *)

(** C3.  For [elapsed >= 0], [duration_per_rep > 0] and
    [repetitions >= 1] the repetition index is
    [floor(elapsed / duration_per_rep) + 1] clamped above at
    [repetitions]; it lies in [[1, repetitions]], does not decrease when
    [elapsed] grows, and at [elapsed = k * duration_per_rep] with
    [1 <= k <= repetitions - 1] it is [k + 1]. *)
Theorem repetition_for_spec (elapsed d : Q) (reps : Z) :
  (0 <= elapsed)%Q -> (0 < d)%Q -> 1 <= reps ->
  repetition_for elapsed d reps = Ok (Z.min (Qfloor (elapsed / d) + 1) reps)
  /\ (exists r, repetition_for elapsed d reps = Ok r /\ 1 <= r <= reps)
  /\ (forall later, (elapsed <= later)%Q ->
        exists r r', repetition_for elapsed d reps = Ok r
                     /\ repetition_for later d reps = Ok r' /\ r <= r')
  /\ (forall k, 1 <= k <= reps - 1 ->
        repetition_for (inject_Z k * d) d reps = Ok (k + 1)).
Proof.
  intros Ht Hd Hreps.
  pose proof (Qfloor_div_nonneg _ _ Ht Hd) as Hfl.
  split; [apply repetition_for_pos, Hd|].
  split.
  { eexists; split; [apply repetition_for_pos, Hd|]. lia. }
  split.
  { intros later Hle. do 2 eexists.
    split; [apply repetition_for_pos, Hd|].
    split; [apply repetition_for_pos, Hd|].
    pose proof (Qfloor_resp_le _ _ (Qdiv_le_mono _ _ _ Hd Hle)). lia. }
  intros k Hk. rewrite (repetition_for_pos _ _ _ Hd). f_equal.
  assert (E : (inject_Z k * d / d == inject_Z k)%Q).
  { apply Qdiv_mult_l. intros E. rewrite E in Hd. revert Hd. apply Qlt_irrefl. }
  rewrite (Qfloor_comp _ _ E), Qfloor_Z. lia.
Qed.

Lemma repetition_for_spec_witness :
  repetition_for (7 # 2) 3 15 = Ok (Z.min (Qfloor ((7 # 2) / 3) + 1) 15)
  /\ repetition_for (inject_Z 14 * 3) 3 15 = Ok 15.
Proof.
  assert (H0 : (0 <= 7 # 2)%Q) by (unfold Qle; simpl; lia).
  assert (H1 : (0 < 3)%Q) by reflexivity.
  assert (H2 : 1 <= 15) by lia.
  destruct (repetition_for_spec (7 # 2) 3 15 H0 H1 H2) as (Ha & _ & _ & Hd).
  split; [exact Ha|]. apply Hd. lia.
Defined.

(** ** The calibrator *)



(** ** Strings *)

Module PyStrFacts.
Import PyStr.

Lemma digit_not_space (c : ascii) : is_digit c = true -> is_space c = false.
Proof.
  unfold is_digit, is_space. generalize (code c). intros n H.
  apply andb_true_iff in H as [H1 H2].
  apply Nat.leb_le in H1, H2.
  repeat (apply orb_false_iff; split);
    try (apply andb_false_iff);
    try (right; apply Nat.leb_gt; lia);
    apply Nat.eqb_neq; lia.
Qed.

Lemma digit_not_char (c d : ascii) :
  is_digit c = true -> is_digit d = false -> Ascii.eqb c d = false.
Proof.
  intros Hc Hd. destruct (Ascii.eqb_spec c d); [congruence|reflexivity].
Qed.

Lemma all_digits_cons (c : ascii) (s : string) :
  all_digits (String c s) = true <-> is_digit c = true /\ all_digits s = true.
Proof. simpl. apply andb_true_iff. Qed.

Lemma digit_not_int_space (c : ascii) :
  is_digit c = true -> is_int_space c = false.
Proof.
  unfold is_digit, is_int_space. generalize (code c). intros n H.
  apply andb_true_iff in H as [H1 H2].
  apply Nat.leb_le in H1, H2.
  repeat (apply orb_false_iff; split);
    try (apply andb_false_iff; right; apply Nat.leb_gt; lia);
    apply Nat.eqb_neq; lia.
Qed.

Section StripDigits.
Variable p : ascii -> bool.
Hypothesis digits_kept : forall c, is_digit c = true -> p c = false.

Lemma lstrip_digits (s : string) :
  starts_with_digit s = true -> lstrip_by p s = s.
Proof.
  destruct s as [|c s]; simpl; [reflexivity|].
  intros H. now rewrite (digits_kept _ H).
Qed.

Lemma rstrip_digits (s : string) : all_digits s = true -> rstrip_by p s = s.
Proof.
  induction s as [|c s IH]; simpl; [reflexivity|].
  intros H. apply andb_true_iff in H as [Hc Hs].
  rewrite (IH Hs), (digits_kept _ Hc). reflexivity.
Qed.

Lemma strip_digits (s : string) : all_digits s = true -> strip_by p s = s.
Proof.
  intros H. unfold strip_by.
  destruct s as [|c s]; [reflexivity|].
  rewrite lstrip_digits; [now apply rstrip_digits|].
  simpl in *. now apply andb_true_iff in H as [-> _].
Qed.

End StripDigits.

Lemma split_sign_digits (s : string) :
  starts_with_digit s = true -> split_sign s = (false, s).
Proof.
  destruct s as [|c s]; simpl; [reflexivity|]. intros H.
  rewrite (digit_not_char c "-" H eq_refl), (digit_not_char c "+" H eq_refl).
  reflexivity.
Qed.

(** On digits the scan succeeds and counts the characters, and the
    value is the decimal value. *)
Lemma scan_literal_digits (s : string) : forall n after,
  all_digits s = true ->
  (s <> EmptyString \/ after = true) ->
  scan_literal s n after = Some (n + String.length s)%nat.
Proof.
  induction s as [|c s IH]; intros n after Hs Hne; simpl.
  - destruct Hne as [Hne| ->]; [congruence|]. now rewrite Nat.add_0_r.
  - apply andb_true_iff in Hs as [Hc Hs]. rewrite Hc.
    rewrite IH by (auto). f_equal. lia.
Qed.

Lemma literal_value_digits (s : string) : forall acc,
  all_digits s = true -> literal_value acc s = decimal_from acc s.
Proof.
  induction s as [|c s IH]; intros acc Hs; simpl; [reflexivity|].
  apply andb_true_iff in Hs as [Hc Hs]. rewrite Hc. now apply IH.
Qed.

(** [int] of a digit run: its decimal value, unless the run is longer
    than the interpreter's limit. *)
Lemma int_of_str_run (limit : nat) (r : string) :
  all_digits r = true -> r <> EmptyString ->
  int_of_str_with limit r
  = if over_limit limit (String.length r) then Raise ValueError
    else Ok (decimal r).
Proof.
  intros Hd Hne. unfold int_of_str_with.
  rewrite (strip_digits _ digit_not_int_space _ Hd).
  rewrite split_sign_digits.
  - rewrite scan_literal_digits by auto.
    now rewrite literal_value_digits.
  - destruct r as [|c r]; [congruence|].
    simpl in *. now apply andb_true_iff in Hd as [-> _].
Qed.

(** [int] raises nothing but [ValueError]. *)
Lemma int_of_str_raises (limit : nat) (s : string) (e : exn) :
  int_of_str_with limit s = Raise e -> e = ValueError.
Proof.
  unfold int_of_str_with.
  destruct (split_sign (strip_by is_int_space s)) as [neg body].
  destruct (scan_literal body 0 false) as [n|];
    [destruct (over_limit limit n)|]; congruence.
Qed.

(** *** [findall_digits] *)

Lemma findall_starts_with_digit (s : string) :
  starts_with_digit s = true -> findall_digits s <> [].
Proof.
  destruct s as [|c s]; simpl; [congruence|]. intros ->.
  destruct (findall_digits s); [congruence|].
  destruct (starts_with_digit s); congruence.
Qed.

Lemma findall_skip (pre s : string) :
  no_digits pre = true -> findall_digits (pre ++ s) = findall_digits s.
Proof.
  induction pre as [|c pre IH]; simpl; [reflexivity|].
  intros H. apply andb_true_iff in H as [Hc Hp].
  apply negb_true_iff in Hc. rewrite Hc. auto.
Qed.

Lemma findall_digit_then_gap (c : ascii) (s : string) :
  is_digit c = true -> starts_with_digit s = false ->
  findall_digits (String c s) = String c EmptyString :: findall_digits s.
Proof.
  intros Hc Hs. simpl. rewrite Hc, Hs. now destruct (findall_digits s).
Qed.

Lemma findall_run (r rest : string) :
  all_digits r = true -> r <> EmptyString ->
  starts_with_digit rest = false ->
  findall_digits (r ++ rest) = r :: findall_digits rest.
Proof.
  induction r as [|c r IH]; [congruence|].
  intros Hd _ Hrest. apply all_digits_cons in Hd as [Hc Hr].
  destruct r as [|d r].
  - simpl append. now apply findall_digit_then_gap.
  - specialize (IH Hr ltac:(congruence) Hrest).
    change (String c (String d r) ++ rest)%string
      with (String c (String d r ++ rest)).
    cbn [findall_digits]. rewrite IH, Hc.
    apply all_digits_cons in Hr as [Hd _].
    simpl. now rewrite Hd.
Qed.

Lemma starts_with_digit_app (mid s : string) :
  no_digits mid = true -> mid <> EmptyString ->
  starts_with_digit (mid ++ s) = false.
Proof.
  destruct mid as [|c mid]; [congruence|]. simpl.
  intros H _. apply andb_true_iff in H as [H _]. now apply negb_true_iff.
Qed.

Lemma findall_first_two (line pre r1 mid r2 rest : string) :
  first_two_runs line pre r1 mid r2 rest ->
  findall_digits line = r1 :: r2 :: findall_digits rest.
Proof.
  intros (-> & Hpre & Hr1 & Hn1 & Hmid & Hnm & Hr2 & Hn2 & Hrest).
  rewrite (findall_skip _ _ Hpre).
  rewrite (findall_run _ _ Hr1 Hn1 (starts_with_digit_app _ _ Hmid Hnm)).
  rewrite (findall_skip _ _ Hmid).
  now rewrite (findall_run _ _ Hr2 Hn2 Hrest).
Qed.

(** Every first run comes with the text around it. *)
Lemma findall_decompose (s : string) : forall r rs,
  findall_digits s = r :: rs ->
  exists pre rest,
    s = (pre ++ r ++ rest)%string
    /\ no_digits pre = true /\ all_digits r = true /\ r <> EmptyString
    /\ starts_with_digit rest = false /\ findall_digits rest = rs.
Proof.
  induction s as [|c s IH]; intros r rs; [discriminate|].
  cbn [findall_digits].
  destruct (is_digit c) eqn:Hc.
  - destruct (starts_with_digit s) eqn:Hs.
    + destruct (findall_digits s) as [|r' rs'] eqn:Hf.
      { exfalso. now apply (findall_starts_with_digit s). }
      intros [= <- <-].
      destruct (IH _ _ eq_refl) as (pre & rest & E & Hp & Hr & Hn & Hrest & Hfr).
      assert (pre = EmptyString) as ->.
      { destruct pre as [|p pre]; [reflexivity|]. exfalso.
        rewrite E in Hs. simpl in Hs, Hp.
        rewrite Hs in Hp. discriminate. }
      exists EmptyString, rest. simpl in *. rewrite E, Hc, Hr.
      repeat split; auto; congruence.
    + intros E'.
      assert (E : String c EmptyString :: findall_digits s = r :: rs).
      { destruct (findall_digits s); exact E'. }
      injection E as <- <-.
      exists EmptyString, s. simpl. rewrite Hc. repeat split; auto; congruence.
  - intros E. destruct (IH _ _ E) as (pre & rest & -> & Hp & Hr & Hn & Hrest & Hfr).
    exists (String c pre), rest. simpl. rewrite Hc, Hp. repeat split; auto.
Qed.

Lemma length_append (s1 s2 : string) :
  String.length (s1 ++ s2) = (String.length s1 + String.length s2)%nat.
Proof.
  induction s1 as [|c s1 IH]; [reflexivity|].
  change (S (String.length (s1 ++ s2))
          = S (String.length s1 + String.length s2)).
  now rewrite IH.
Qed.

Lemma findall_runs_are_digits (s : string) :
  Forall (fun r => all_digits r = true /\ r <> EmptyString) (findall_digits s).
Proof.
  remember (String.length s) as n eqn:Hn.
  revert s Hn. induction n as [n IHn] using lt_wf_ind. intros s Hn.
  destruct (findall_digits s) as [|r rs] eqn:Hf; [constructor|].
  destruct (findall_decompose _ _ _ Hf) as (pre & rest & E & _ & Hr & Hne & _ & Hfr).
  constructor; [auto|]. rewrite <- Hfr.
  apply (IHn (String.length rest)); [|reflexivity].
  subst s n. rewrite !length_append.
  destruct r; [congruence|]. simpl. lia.
Qed.

(** The runs [findall_digits] returns are as many as the positions
    where a run starts. *)
Lemma count_runs_from_findall (s : string) :
  count_runs_from false s = length (findall_digits s)
  /\ count_runs_from true s
     = (length (findall_digits s) - (if starts_with_digit s then 1 else 0))%nat.
Proof.
  induction s as [|c s [IH1 IH2]]; [split; reflexivity|].
  cbn [count_runs_from findall_digits starts_with_digit].
  destruct (is_digit c) eqn:Hc.
  - rewrite IH2.
    destruct (starts_with_digit s) eqn:Hs.
    + pose proof (findall_starts_with_digit _ Hs) as Hne.
      destruct (findall_digits s); [congruence|]. simpl. split; lia.
    + destruct (findall_digits s); simpl; split; lia.
  - rewrite IH1. split; lia.
Qed.

Lemma count_runs_findall (s : string) :
  count_runs s = length (findall_digits s).
Proof. apply count_runs_from_findall. Qed.

Lemma two_runs_decompose (line : string) :
  (2 <= count_runs line)%nat ->
  exists pre r1 mid r2 rest, first_two_runs line pre r1 mid r2 rest.
Proof.
  rewrite count_runs_findall. intros H.
  destruct (findall_digits line) as [|r1 [|r2 rs]] eqn:Hf; simpl in H; try lia.
  destruct (findall_decompose _ _ _ Hf) as (pre & s1 & E1 & Hp & Hr1 & Hn1 & Hs1 & Hf1).
  destruct (findall_decompose _ _ _ Hf1) as (mid & rest & E2 & Hm & Hr2 & Hn2 & Hrest & _).
  exists pre, r1, mid, r2, rest. unfold first_two_runs.
  subst line s1. repeat split; auto.
  intros ->. destruct r2 as [|d r2]; [congruence|].
  simpl in Hs1, Hr2. rewrite Hs1 in Hr2. discriminate.
Qed.

Lemma replicate_char_length (n : nat) (c : ascii) :
  String.length (replicate_char n c) = n.
Proof. induction n; simpl; congruence. Qed.

End PyStrFacts.

(** ** The line parser *)

Section Parser.
Import PyStr PyStrFacts.

Variable limit : nat.

(** With at least two runs the outcome is decided by the first two:
    the pair of their values, or the sentinel when one of them is
    longer than the interpreter's limit. *)
Lemma parse_traced_two_runs (line r1 r2 : string) (rs : list string) :
  findall_digits line = r1 :: r2 :: rs ->
  parse_dual_channel_traced limit line
  = if over_limit limit (String.length r1) || over_limit limit (String.length r2)
    then (BranchValueError, Ok sentinel)
    else (BranchPair, Ok (Some (decimal r1), Some (decimal r2))).
Proof.
  intros Hf. unfold parse_dual_channel_traced. rewrite Hf.
  pose proof (findall_runs_are_digits line) as Hall. rewrite Hf in Hall.
  inversion Hall as [|? ? [Hd1 Hn1] Hall']. subst.
  inversion Hall' as [|? ? [Hd2 Hn2] _]. subst.
  rewrite (int_of_str_run limit _ Hd1 Hn1), (int_of_str_run limit _ Hd2 Hn2).
  destruct (over_limit limit (String.length r1));
    destruct (over_limit limit (String.length r2)); reflexivity.
Qed.

Lemma parse_traced_few_runs (line : string) :
  (count_runs line < 2)%nat ->
  parse_dual_channel_traced limit line = (BranchTooFew, Ok sentinel).
Proof.
  rewrite count_runs_findall. unfold parse_dual_channel_traced.
  destruct (findall_digits line) as [|r1 [|r2 rs]]; simpl; intros H;
    [reflexivity|reflexivity|lia].
Qed.

(** No exception leaves the parser, whatever the limit. *)
Lemma parse_with_returns (line : string) :
  exists v, parse_dual_channel_with limit line = Ok v
            /\ (v = sentinel \/ exists a b, v = (Some a, Some b)).
Proof.
  unfold parse_dual_channel_with.
  destruct (findall_digits line) as [|r1 [|r2 rs]] eqn:Hf.
  - rewrite parse_traced_few_runs by (rewrite count_runs_findall, Hf; simpl; lia).
    eexists; split; [reflexivity|now left].
  - rewrite parse_traced_few_runs by (rewrite count_runs_findall, Hf; simpl; lia).
    eexists; split; [reflexivity|now left].
  - rewrite (parse_traced_two_runs _ _ _ _ Hf).
    destruct (_ || _); eexists; (split; [reflexivity|]); [now left|right; eauto].
Qed.

End Parser.

Lemma default_limit_positive : (0 < PyStr.default_max_str_digits)%nat.
Proof. apply Nat.lt_0_succ. Qed.

Lemma over_default_limit (n : nat) :
  PyStr.over_limit PyStr.default_max_str_digits n = true
  <-> (PyStr.default_max_str_digits < n)%nat.
Proof.
  unfold PyStr.over_limit. pose proof default_limit_positive as Hpos.
  revert Hpos. generalize PyStr.default_max_str_digits. intros d Hpos.
  rewrite andb_true_iff, !Nat.ltb_lt. lia.
Qed.

Lemma within_default_limit (n : nat) :
  (n <= PyStr.default_max_str_digits)%nat ->
  PyStr.over_limit PyStr.default_max_str_digits n = false.
Proof.
  intros H. destruct (PyStr.over_limit _ n) eqn:E; [|reflexivity].
  apply over_default_limit in E. revert H E.
  generalize PyStr.default_max_str_digits. intros d H E. lia.
Qed.

(** With the digit limit switched off, every line with two runs parses
    to its first two runs. *)
Lemma parse_unlimited_first_two (line pre r1 mid r2 rest : string) :
  first_two_runs line pre r1 mid r2 rest ->
  parse_dual_channel_with 0 line
  = Ok (Some (PyStr.decimal r1), Some (PyStr.decimal r2)).
Proof.
  intros H. unfold parse_dual_channel_with.
  now rewrite (parse_traced_two_runs 0 _ _ _ _ (PyStrFacts.findall_first_two _ _ _ _ _ _ H)).
Qed.

(** C4, as the code has it.  When [r1] and [r2] are the first two
    maximal digit runs of a line and neither is longer than 4300 digits,
    the parser returns the pair of their values, whatever the text
    around them; when one of them is longer, the conversion raises
    [ValueError] and the parser returns the sentinel.  Every line with
    at least two runs has such first two runs, and a line with fewer
    than two runs gives the sentinel. *)
Theorem parse_dual_channel_first_two (line : string) :
  (forall pre r1 mid r2 rest,
      first_two_runs line pre r1 mid r2 rest ->
      ((String.length r1 <= PyStr.default_max_str_digits)%nat -> (String.length r2 <= PyStr.default_max_str_digits)%nat ->
       parse_dual_channel line
       = Ok (Some (PyStr.decimal r1), Some (PyStr.decimal r2)))
      /\ ((PyStr.default_max_str_digits < String.length r1)%nat \/ (PyStr.default_max_str_digits < String.length r2)%nat ->
          parse_dual_channel line = Ok sentinel))
  /\ ((2 <= PyStr.count_runs line)%nat ->
      exists pre r1 mid r2 rest, first_two_runs line pre r1 mid r2 rest)
  /\ ((PyStr.count_runs line < 2)%nat -> parse_dual_channel line = Ok sentinel).
Proof.
  split; [|split].
  - intros pre r1 mid r2 rest H.
    pose proof (PyStrFacts.findall_first_two _ _ _ _ _ _ H) as Hf.
    unfold parse_dual_channel, parse_dual_channel_with.
    rewrite (parse_traced_two_runs _ _ _ _ _ Hf). split.
    + intros H1 H2. now rewrite !within_default_limit.
    + intros [H1|H1]; apply over_default_limit in H1; rewrite H1;
        [reflexivity|]. now rewrite orb_true_r.
  - apply PyStrFacts.two_runs_decompose.
  - intros H. unfold parse_dual_channel, parse_dual_channel_with.
    now rewrite parse_traced_few_runs.
Qed.

Lemma parse_dual_channel_first_two_witness :
  parse_dual_channel "EMG1:512 EMG2:478" = Ok (Some 1, Some 512)
  /\ parse_dual_channel "512 volts" = Ok sentinel.
Proof.
  split.
  - assert (H : first_two_runs "EMG1:512 EMG2:478" "EMG" "1" ":" "512" " EMG2:478").
    { unfold first_two_runs. repeat split; try reflexivity; discriminate. }
    apply (parse_dual_channel_first_two "EMG1:512 EMG2:478") in H.
    apply H; apply Nat.leb_le; vm_compute; reflexivity.
  - apply (parse_dual_channel_first_two "512 volts").
    apply Nat.ltb_lt. vm_compute. reflexivity.
Defined.

(** C4, as the claim has it, fails on a line whose first run has 4301
    digits: it has two runs, and the parser returns the sentinel. *)
Lemma parse_dual_channel_long_run :
  first_two_runs long_line EmptyString long_run "," "2" EmptyString
  /\ PyStr.count_runs long_line = 2%nat
  /\ parse_dual_channel long_line = Ok sentinel
  /\ ~ (exists a b, parse_dual_channel long_line = Ok (Some a, Some b)).
Proof.
  assert (Hp : parse_dual_channel long_line = Ok sentinel)
    by (vm_compute; reflexivity).
  split; [|split; [vm_compute; reflexivity|split; [exact Hp|]]].
  - unfold first_two_runs.
    split; [vm_compute; reflexivity|].
    repeat (split; [first [vm_compute; reflexivity | discriminate]|]).
    reflexivity.
  - intros (a & b & H). rewrite Hp in H. discriminate.
Qed.

(** C9, as the code has it.  No exception leaves [parse_dual_channel]:
    every line gives the sentinel or a pair.  The handler of
    [ValueError] is reached exactly when one of the first two runs has
    more than 4300 digits; a run of at most 4300 digits always converts
    to its decimal value. *)
Theorem parse_dual_channel_total (line : string) :
  (exists v, parse_dual_channel line = Ok v
             /\ (v = sentinel \/ exists a b, v = (Some a, Some b)))
  /\ (parse_branch_of line = BranchValueError <->
      exists r1 r2 rs,
        PyStr.findall_digits line = r1 :: r2 :: rs
        /\ ((PyStr.default_max_str_digits < String.length r1)%nat \/ (PyStr.default_max_str_digits < String.length r2)%nat))
  /\ parse_branch_of line <> BranchUncaught
  /\ Forall (fun r => (String.length r <= PyStr.default_max_str_digits)%nat ->
                      PyStr.int_of_str r = Ok (PyStr.decimal r))
            (PyStr.findall_digits line).
Proof.
  split; [apply parse_with_returns|].
  assert (Hbr : forall r1 r2 rs,
             PyStr.findall_digits line = r1 :: r2 :: rs ->
             parse_branch_of line
             = if PyStr.over_limit PyStr.default_max_str_digits (String.length r1)
                  || PyStr.over_limit PyStr.default_max_str_digits (String.length r2)
               then BranchValueError else BranchPair).
  { intros r1 r2 rs Hf. unfold parse_branch_of.
    rewrite (parse_traced_two_runs _ _ _ _ _ Hf). now destruct (_ || _). }
  assert (Hfew : (PyStr.count_runs line < 2)%nat ->
                 parse_branch_of line = BranchTooFew).
  { intros H. unfold parse_branch_of. now rewrite parse_traced_few_runs. }
  rewrite PyStrFacts.count_runs_findall in Hfew.
  split; [|split].
  - split.
    + intros H.
      destruct (PyStr.findall_digits line) as [|r1 [|r2 rs]] eqn:Hf;
        try (rewrite Hfew in H by (simpl; lia); discriminate).
      exists r1, r2, rs. split; [reflexivity|].
      rewrite (Hbr _ _ _ eq_refl) in H.
      destruct (PyStr.over_limit _ (String.length r1)) eqn:E1.
      * left. now apply over_default_limit.
      * destruct (PyStr.over_limit _ (String.length r2)) eqn:E2;
          [|discriminate]. right. now apply over_default_limit.
    + intros (r1 & r2 & rs & Hf & H). rewrite (Hbr _ _ _ Hf).
      destruct H as [H|H]; apply over_default_limit in H; rewrite H;
        [reflexivity|now rewrite orb_true_r].
  - destruct (PyStr.findall_digits line) as [|r1 [|r2 rs]] eqn:Hf;
      try (rewrite Hfew by (simpl; lia); discriminate).
    rewrite (Hbr _ _ _ eq_refl). now destruct (_ || _).
  - eapply Forall_impl; [apply PyStrFacts.findall_runs_are_digits|].
    intros r [Hd Hn] Hlen. unfold PyStr.int_of_str.
    rewrite (PyStrFacts.int_of_str_run _ _ Hd Hn).
    now rewrite within_default_limit.
Qed.

Lemma parse_dual_channel_total_witness :
  (exists v, parse_dual_channel "512,478" = Ok v)
  /\ parse_branch_of long_line = BranchValueError.
Proof.
  split.
  - destruct (parse_dual_channel_total "512,478") as ((v & H & _) & _).
    exists v. exact H.
  - destruct (parse_dual_channel_total long_line) as (_ & Hiff & _).
    apply Hiff.
    exists long_run, "2"%string, []. split; [vm_compute; reflexivity|].
    left. unfold long_run. rewrite PyStrFacts.replicate_char_length.
    apply Nat.lt_succ_diag_r.
Defined.

(** C9, as the claim has it, fails: the line with a run of 4301 digits
    ends in the handler of [ValueError]. *)
Lemma parse_dual_channel_handler_reached :
  PyStr.findall_digits long_line = [long_run; "2"%string]
  /\ PyStr.int_of_str long_run = Raise ValueError
  /\ parse_branch_of long_line = BranchValueError.
Proof. split; [|split]; vm_compute; reflexivity. Qed.

(** ** Truncation *)

Lemma to_int_nonpos (x : Q) : (x <= 0)%Q -> PyFloat.to_int x = Qceiling x.
Proof.
  destruct x as [n d]. unfold Qle, PyFloat.to_int, Qceiling, Qfloor; simpl.
  intros H.
  replace n with (- - n) at 1 by lia.
  rewrite Z.quot_opp_l by lia. f_equal.
  apply Z.quot_div_nonneg; lia.
Qed.

Lemma to_int_mono (x y : Q) : (x <= y)%Q -> PyFloat.to_int x <= PyFloat.to_int y.
Proof.
  intros Hxy.
  destruct (Qlt_le_dec x 0) as [Hx|Hx]; destruct (Qlt_le_dec y 0) as [Hy|Hy].
  - rewrite !to_int_nonpos by (now apply Qlt_le_weak).
    now apply Qceiling_resp_le.
  - rewrite (to_int_nonpos x) by (now apply Qlt_le_weak).
    rewrite (to_int_nonneg y) by assumption.
    assert (Qceiling x <= Qceiling 0)
      by (apply Qceiling_resp_le; now apply Qlt_le_weak).
    assert (Qfloor 0 <= Qfloor y) by (now apply Qfloor_resp_le).
    change (Qceiling 0) with 0 in *. change (Qfloor 0) with 0 in *. lia.
  - exfalso. apply (Qlt_irrefl 0).
    eapply Qle_lt_trans; [exact Hx|]. eapply Qle_lt_trans; eassumption.
  - rewrite !to_int_nonneg by assumption + (eapply Qle_trans; eassumption).
    now apply Qfloor_resp_le.
Qed.

(** For a non-negative float [int] is the floor. *)
Lemma to_int_floor_bounds (x : Q) :
  (0 <= x)%Q ->
  (inject_Z (PyFloat.to_int x) <= x)%Q /\ (x < inject_Z (PyFloat.to_int x + 1))%Q.
Proof.
  intros H. rewrite (to_int_nonneg _ H). split; [apply Qfloor_le|apply Qlt_floor].
Qed.

(** ** Index transitions *)

Lemma last_cons (l : list Z) : forall a prev,
  List.last (a :: l) prev = List.last l a.
Proof.
  induction l as [|b l IH]; intros a prev; [reflexivity|].
  change (List.last (b :: l) prev = List.last (b :: l) a).
  now rewrite !IH.
Qed.

Lemma transitions_snoc (l : list Z) : forall (prev r : Z),
  transitions prev (l ++ [r])
  = transitions prev l ++ (if r =? List.last l prev then [] else [r]).
Proof.
  induction l as [|a l IH]; intros prev r.
  - simpl. now destruct (r =? prev).
  - rewrite last_cons. simpl. rewrite IH. now destruct (a =? prev).
Qed.

(** Along a non-decreasing sequence the transitions go up. *)
Lemma transitions_increasing (l : list Z) : forall prev,
  Sorted Z.le (prev :: l) ->
  StronglySorted Z.lt (transitions prev l)
  /\ Forall (fun r => prev < r) (transitions prev l).
Proof.
  induction l as [|a l IH]; intros prev Hs; simpl.
  - split; constructor.
  - apply Sorted_inv in Hs as [Hs Hhd]. apply HdRel_inv in Hhd.
    destruct (IH a Hs) as [IHs IHf].
    destruct (Z.eqb_spec a prev) as [->|Hne]; [now split|].
    split.
    + constructor; [exact IHs|exact IHf].
    + constructor; [lia|].
      eapply Forall_impl; [exact IHf|]. intros r Hr; simpl in *. lia.
Qed.

Lemma StronglySorted_lt_le (l : list Z) :
  StronglySorted Z.lt l -> Sorted Z.le l.
Proof.
  intros H. apply StronglySorted_Sorted.
  induction H as [|a l Hs IH Hf]; constructor; [exact IH|].
  eapply Forall_impl; [exact Hf|]. intros; simpl in *; lia.
Qed.

Lemma transitions_sorted (prev : Z) (l : list Z) :
  Sorted Z.le l -> StronglySorted Z.lt (transitions prev l).
Proof.
  destruct l as [|a l]; intros Hl; simpl; [constructor|].
  destruct (transitions_increasing l a Hl) as [Hss Hf].
  destruct (a =? prev); [exact Hss|constructor; assumption].
Qed.

Lemma StronglySorted_lt_NoDup (l : list Z) : StronglySorted Z.lt l -> NoDup l.
Proof.
  intros Hss. induction Hss as [|a l Hs IH Hf]; constructor; [|exact IH].
  intros Hin. rewrite Forall_forall in Hf.
  assert (a < a) by (apply Hf, Hin). lia.
Qed.


(** ** One sample *)

Lemma buffered_append (t : Q) (ch1 ch2 : Z) (r : row) (l : session) :
  length (emg1 l) = length (timestamps l) ->
  length (emg2 l) = length (timestamps l) ->
  buffered (append_sample t ch1 ch2 r l) = buffered l ++ [(t, ch1, ch2)].
Proof.
  intros H1 H2. unfold buffered; simpl.
  assert (G : forall (A B : Type) (a : list A) (b : list B) x y,
             length a = length b ->
             combine (a ++ [x]) (b ++ [y]) = combine a b ++ [(x, y)]).
  { intros A B a. induction a as [|a0 a IH]; intros [|b0 b] x y Hl;
      simpl in *; try discriminate; [reflexivity|].
    f_equal. apply IH. congruence. }
  rewrite G by congruence.
  rewrite G; [reflexivity|].
  rewrite length_combine. rewrite H1, H2. apply Nat.min_id.
Qed.

(** What [sample_step] does when it does not raise. *)
Lemma sample_step_ok (cfg : config) (t : Q) (ch1 ch2 : Z) (l l' : session)
  (notes : list msg) :
  sample_step cfg t ch1 ch2 l = Ok (l', notes) ->
  let r := rep_index cfg t in
  repetition_for t (duration_per_rep cfg) (repetitions cfg) = Ok r
  /\ l' = append_sample t ch1 ch2 (row_of_sample cfg (t, ch1, ch2))
            (if r =? current_rep l then l else set_current_rep r l)
  /\ notes = (if r =? current_rep l then [] else [MsgRecordingRep r]).
Proof.
  unfold sample_step, row_of_sample, rep_index.
  destruct (repetition_for t (duration_per_rep cfg) (repetitions cfg)) as [r|e];
    [|discriminate].
  simpl. destruct (r =? current_rep l); intros [= <- <-]; auto.
Qed.

Lemma sample_step_raise (cfg : config) (t : Q) (ch1 ch2 : Z) (l : session) (e : exn) :
  sample_step cfg t ch1 ch2 l = Raise e ->
  Qeq_bool (duration_per_rep cfg) 0 = true.
Proof.
  unfold sample_step, repetition_for, PyFloat.floordiv.
  destruct (Qeq_bool (duration_per_rep cfg) 0); [reflexivity|].
  simpl. destruct (_ =? _); discriminate.
Qed.

Lemma sample_step_inv (cfg : config) (t : Q) (ch1 ch2 : Z) (l l' : session)
  (notes : list msg) (announced : list Z) :
  session_inv cfg l announced ->
  sample_step cfg t ch1 ch2 l = Ok (l', notes) ->
  session_inv cfg l' (announced ++ rep_notifications notes)
  /\ buffered l' = buffered l ++ [(t, ch1, ch2)]
  /\ overall_start l' = overall_start l.
Proof.
  intros (H1 & H2 & Hrows & Hcur & Hann) Hstep.
  apply sample_step_ok in Hstep as (_ & -> & ->).
  set (r := rep_index cfg t).
  set (l1 := if r =? current_rep l then l else set_current_rep r l).
  assert (E1 : emg1 l1 = emg1 l) by (unfold l1; now destruct (_ =? _)).
  assert (E2 : emg2 l1 = emg2 l) by (unfold l1; now destruct (_ =? _)).
  assert (Et : timestamps l1 = timestamps l) by (unfold l1; now destruct (_ =? _)).
  assert (Er : rows l1 = rows l) by (unfold l1; now destruct (_ =? _)).
  assert (Eb : buffered l1 = buffered l) by (unfold buffered; congruence).
  assert (Es : overall_start l1 = overall_start l) by (unfold l1; now destruct (_ =? _)).
  assert (Hbuf : buffered (append_sample t ch1 ch2 (row_of_sample cfg (t, ch1, ch2)) l1)
                 = buffered l ++ [(t, ch1, ch2)]).
  { rewrite buffered_append by congruence. now rewrite Eb. }
  split; [|split; [exact Hbuf|exact Es]].
  unfold session_inv. rewrite Hbuf. simpl.
  rewrite E1, E2, Et, Er, !length_app. simpl.
  split; [lia|]. split; [lia|].
  split; [rewrite map_app, Hrows; reflexivity|].
  rewrite map_app. simpl map. rewrite List.last_last.
  split.
  - change (rep (row_of_sample cfg (t, ch1, ch2))) with r.
    unfold l1. destruct (Z.eqb_spec r (current_rep l)); simpl;
      unfold r in *; congruence.
  - rewrite transitions_snoc, <- Hann, <- Hcur.
    change (rep (row_of_sample cfg (t, ch1, ch2))) with r.
    unfold r. now destruct (rep_index cfg t =? current_rep l).
Qed.

Lemma session_inv_new (cfg : config) (start : Q) :
  session_inv cfg (new_session start) [].
Proof. repeat split. Qed.

(** Updates that leave the buffers and the repetition alone. *)
Lemma session_inv_ext (cfg : config) (l l' : session) (announced : list Z) :
  timestamps l' = timestamps l -> emg1 l' = emg1 l -> emg2 l' = emg2 l ->
  rows l' = rows l -> current_rep l' = current_rep l ->
  session_inv cfg l announced -> session_inv cfg l' announced.
Proof.
  unfold session_inv, buffered. intros -> -> -> -> ->. auto.
Qed.

(** ** The loop *)

Lemma rep_notifications_app (a b : list msg) :
  rep_notifications (a ++ b) = rep_notifications a ++ rep_notifications b.
Proof. unfold rep_notifications. apply flat_map_app. Qed.

Lemma gestures_started_app (a b : list msg) :
  gestures_started (a ++ b) = gestures_started a ++ gestures_started b.
Proof. unfold gestures_started. apply flat_map_app. Qed.

Lemma print_all_out (notes : list msg) : forall st,
  out (print_all notes st) = out st ++ notes.
Proof.
  unfold print_all.
  induction notes as [|m notes IH]; intros st; simpl.
  - now rewrite app_nil_r.
  - rewrite IH. simpl. now rewrite <- app_assoc.
Qed.

Lemma print_all_frame (notes : list msg) : forall st,
  ticks (print_all notes st) = ticks st
  /\ polls (print_all notes st) = polls st
  /\ draws (print_all notes st) = draws st
  /\ files (print_all notes st) = files st
  /\ dirs (print_all notes st) = dirs st
  /\ open_figures (print_all notes st) = open_figures st
  /\ port_open (print_all notes st) = port_open st.
Proof.
  unfold print_all.
  induction notes as [|m notes IH]; intros st; simpl; [repeat split|].
  destruct (IH (print m st)) as (? & ? & ? & ? & ? & ? & ?).
  repeat split; assumption.
Qed.

Lemma same_buffers_refl (l : session) : same_buffers l l.
Proof. repeat split. Qed.


Lemma same_outside_refl (st : state) : same_outside st st.
Proof. repeat split; auto. Qed.

Lemma same_outside_trans (s1 s2 s3 : state) :
  same_outside s1 s2 -> same_outside s2 s3 -> same_outside s1 s3.
Proof.
  unfold same_outside. intros (?&?&?&?&?&?) (?&?&?&?&?&?).
  repeat split; try congruence. lia.
Qed.

Lemma session_inv_same (cfg : config) (l l' : session) (announced : list Z) :
  same_buffers l l' -> session_inv cfg l announced -> session_inv cfg l' announced.
Proof.
  intros (?&?&?&?&?&?). now apply session_inv_ext.
Qed.

(** The redraw touches neither the buffers nor the files. *)
Lemma plot_step_frame (w : world) (cfg : config) (l l' : session) (st st' : state) :
  plot_step w cfg l st = (l', st') ->
  same_buffers l l' /\ checks l' = checks l
  /\ same_outside st st'
  /\ rep_notifications (out st') = rep_notifications (out st)
  /\ ticks st' = S (ticks st) /\ polls st' = polls st.
Proof.
  unfold plot_step, time_time, canvas_draw. simpl.
  destruct (PyFloat.geb _ _).
  - destruct (draw_fault w (draws st)); intros [= <- <-];
      destruct (timestamps l) eqn:Et; simpl;
      unfold same_buffers, same_outside; simpl;
      rewrite ?rep_notifications_app, ?gestures_started_app, ?app_nil_r;
      repeat split; auto.
  - intros [= <- <-]. unfold same_buffers, same_outside; simpl.
    repeat split; auto.
Qed.

Ltac quiet_outcome :=
  intros [= <- <-]; unfold same_outside, same_buffers; simpl;
  rewrite ?rep_notifications_app, ?gestures_started_app; simpl;
  rewrite ?app_nil_r;
  repeat split; auto; left; repeat split; auto.

(** One iteration either leaves the buffers as they are, or appends
    the sample of one parsed line, timed by the next clock reading. *)
Lemma loop_body_cases (w : world) (cfg : config) (l l' : session) (st st' : state) :
  loop_body w cfg l st = (l', st') ->
  checks l' = checks l /\ same_outside st st' /\ polls st' = S (polls st)
  /\ ((same_buffers l l'
       /\ rep_notifications (out st') = rep_notifications (out st))
      \/ (exists raw ch1 ch2 l1 notes,
            port w (polls st) = Line raw
            /\ parse_dual_channel (PyStr.strip raw) = Ok (Some ch1, Some ch2)
            /\ sample_step cfg (clock w (ticks st) - overall_start l) ch1 ch2 l
               = Ok (l1, notes)
            /\ same_buffers l1 l'
            /\ rep_notifications (out st')
               = rep_notifications (out st) ++ rep_notifications notes
            /\ ticks st' = S (S (ticks st)))).
Proof.
  unfold loop_body, poll_port. simpl.
  destruct (port w (polls st)) as [|raw|] eqn:Hport.
  - (* nothing waiting *)
    intros H. apply plot_step_frame in H as (Hb & Hc & Ho & Hn & Ht & Hp).
    repeat split; try apply Ho; auto.
  - destruct (PyStr.is_empty (PyStr.strip raw)); [quiet_outcome|].
    destruct (parse_dual_channel (PyStr.strip raw)) as [[[ch1|] [ch2|]]|e] eqn:Hparse;
      try quiet_outcome.
    unfold time_time. simpl.
    destruct (sample_step cfg _ ch1 ch2 l) as [[l1 notes]|e] eqn:Hstep;
      [|quiet_outcome].
    intros H. apply plot_step_frame in H as (Hb & Hc & Ho & Hn & Ht & Hp).
    destruct (print_all_frame notes (tick (polled st)))
      as (Pt & Pp & Pd & Pf & Pdi & Pof & Ppo).
    rewrite print_all_out in Hn. simpl in *.
    destruct Ho as (Of & Od & Oo & Op & Ot & Og).
    rewrite print_all_out in Og. simpl in Og.
    apply sample_step_ok in Hstep as Hok. destruct Hok as (_ & El1 & En).
    split; [rewrite Hc, El1; simpl; now destruct (_ =? _)|].
    split.
    { unfold same_outside. rewrite Of, Od, Oo, Op, Pf, Pdi, Pof, Ppo. simpl.
      repeat split; [lia|]. rewrite Og, gestures_started_app, En.
      destruct (_ =? _); simpl; now rewrite app_nil_r. }
    split; [congruence|].
    right. exists raw, ch1, ch2, l1, notes.
    repeat split; auto; try apply Hb.
    + now rewrite Hn, rep_notifications_app.
    + lia.
  - quiet_outcome.
Qed.

Section Loop.
Variable w : world.
Variable cfg : config.

Lemma loop_cond_spec (l l1 : session) (st st1 : state) (go : bool) :
  loop_cond w cfg l st = (go, (l1, st1)) ->
  let elapsed := (clock w (ticks st) - overall_start l)%Q in
  go = PyFloat.ltb elapsed (total_duration cfg)
  /\ l1 = record_check elapsed l
  /\ same_buffers l l1
  /\ same_outside st st1
  /\ out st1 = out st
  /\ ticks st1 = S (ticks st).
Proof.
  unfold loop_cond, time_time. simpl. intros [= <- <- <-].
  unfold same_buffers, same_outside. simpl. repeat split; auto.
Qed.

Lemma after_iterations_S (k : nat) (l : session) (st : state) :
  after_iterations (S k) w cfg l st
  = match loop_cond w cfg l st with
    | (true, (l1, st1)) =>
        after_iterations k w cfg (fst (loop_body w cfg l1 st1))
                         (snd (loop_body w cfg l1 st1))
    | (false, _) => None
    end.
Proof.
  cbn [after_iterations].
  destruct (loop_cond w cfg l st) as [[|] [l1 st1]]; [|reflexivity].
  now destruct (loop_body w cfg l1 st1).
Qed.

Lemma acquire_S (fuel : nat) (l : session) (st : state) :
  acquire (S fuel) w cfg l st
  = match loop_cond w cfg l st with
    | (true, (l1, st1)) =>
        acquire fuel w cfg (fst (loop_body w cfg l1 st1))
                (snd (loop_body w cfg l1 st1))
    | (false, r) => Some r
    end.
Proof.
  cbn [acquire].
  destruct (loop_cond w cfg l st) as [[|] [l1 st1]]; [|reflexivity].
  now destruct (loop_body w cfg l1 st1).
Qed.

(** Induction over the iterations of the loop. *)
Lemma after_iterations_ind (P : session -> state -> Prop) :
  (forall l st l1 st1 l2 st2,
      P l st ->
      loop_cond w cfg l st = (true, (l1, st1)) ->
      loop_body w cfg l1 st1 = (l2, st2) ->
      P l2 st2) ->
  forall k l st l' st',
    P l st -> after_iterations k w cfg l st = Some (l', st') -> P l' st'.
Proof.
  intros Hstep. induction k as [|k IH]; intros l st l' st' HP.
  - now intros [= <- <-].
  - rewrite after_iterations_S.
    destruct (loop_cond w cfg l st) as [[|] [l1 st1]] eqn:Hc; [|discriminate].
    apply IH. eapply Hstep; [exact HP|exact Hc|]. apply surjective_pairing.
Qed.

(** The loop ends after some number of complete iterations, at a
    test of the condition that fails. *)
Lemma acquire_after_iterations (fuel : nat) : forall l st l' st',
  acquire fuel w cfg l st = Some (l', st') ->
  exists k l2 st2,
    (k < fuel)%nat
    /\ after_iterations k w cfg l st = Some (l2, st2)
    /\ loop_cond w cfg l2 st2 = (false, (l', st')).
Proof.
  induction fuel as [|fuel IH]; intros l st l' st'; [discriminate|].
  rewrite acquire_S.
  destruct (loop_cond w cfg l st) as [[|] [l1 st1]] eqn:Hc.
  - intros H. destruct (IH _ _ _ _ H) as (k & l3 & st3 & Hk & Ha & He).
    exists (S k), l3, st3. rewrite after_iterations_S, Hc.
    repeat split; auto. lia.
  - intros [= <- <-]. exists 0%nat, l, st. repeat split; auto. lia.
Qed.

Lemma acquire_ind (P Q : session -> state -> Prop) :
  (forall l st l1 st1 l2 st2,
      P l st ->
      loop_cond w cfg l st = (true, (l1, st1)) ->
      loop_body w cfg l1 st1 = (l2, st2) ->
      P l2 st2) ->
  (forall l st l1 st1,
      P l st -> loop_cond w cfg l st = (false, (l1, st1)) -> Q l1 st1) ->
  forall fuel l st l' st',
    P l st -> acquire fuel w cfg l st = Some (l', st') -> Q l' st'.
Proof.
  intros Hstep Hexit fuel l st l' st' HP Ha.
  destruct (acquire_after_iterations _ _ _ _ _ Ha) as (k & l2 & st2 & _ & Hk & He).
  eapply Hexit; [|exact He].
  eapply after_iterations_ind; eassumption.
Qed.

(** *** The invariants, over one iteration *)

Lemma loop_inv_step (start : Q) (base : list Z)
  (l l1 l2 : session) (st st1 st2 : state) :
  loop_inv cfg start base l st ->
  loop_cond w cfg l st = (true, (l1, st1)) ->
  loop_body w cfg l1 st1 = (l2, st2) ->
  loop_inv cfg start base l2 st2.
Proof.
  intros (Hs & ann & Hout & Hinv) Hc Hb.
  apply loop_cond_spec in Hc as (_ & _ & Hb1 & _ & Ho1 & _).
  apply loop_body_cases in Hb as (_ & _ & _ & Hcase).
  assert (Hinv1 : session_inv cfg l1 ann) by (eapply session_inv_same; eauto).
  assert (Hs1 : overall_start l1 = start) by (destruct Hb1 as (_&_&_&_&_&E); congruence).
  destruct Hcase as [(Hsame & Hn)|(raw & ch1 & ch2 & l' & notes & _ & _ & Hstep & Hsame & Hn & _)].
  - split; [destruct Hsame as (_&_&_&_&_&E); congruence|].
    exists ann. split; [congruence|]. eapply session_inv_same; eauto.
  - destruct (sample_step_inv _ _ _ _ _ _ _ _ Hinv1 Hstep) as (Hinv' & _ & Es).
    split; [destruct Hsame as (_&_&_&_&_&E); congruence|].
    exists (ann ++ rep_notifications notes).
    split; [rewrite Hn, Ho1, Hout; now rewrite app_assoc|].
    eapply session_inv_same; eauto.
Qed.

Lemma loop_inv_exit (start : Q) (base : list Z)
  (l l1 : session) (st st1 : state) (go : bool) :
  loop_inv cfg start base l st ->
  loop_cond w cfg l st = (go, (l1, st1)) ->
  loop_inv cfg start base l1 st1.
Proof.
  intros (Hs & ann & Hout & Hinv) Hc.
  apply loop_cond_spec in Hc as (_ & _ & Hb1 & _ & Ho1 & _).
  split; [destruct Hb1 as (_&_&_&_&_&E); congruence|].
  exists ann. split; [congruence|]. eapply session_inv_same; eauto.
Qed.

Lemma timed_by_clock_step (l l1 l2 : session) (st st1 st2 : state) :
  timed_by_clock w l st ->
  loop_cond w cfg l st = (true, (l1, st1)) ->
  loop_body w cfg l1 st1 = (l2, st2) ->
  timed_by_clock w l2 st2.
Proof.
  intros (ks & Ht & Hsorted & Hlt) Hc Hb.
  apply loop_cond_spec in Hc as (_ & _ & Hb1 & _ & _ & Ht1).
  destruct Hb1 as (Et1 & _ & _ & _ & _ & Es1).
  apply loop_body_cases in Hb as (_ & Ho & _ & Hcase).
  destruct Ho as (_ & _ & _ & _ & Hticks & _).
  destruct Hcase as [(Hsame & _)|(raw & ch1 & ch2 & l' & notes & _ & _ & Hstep & Hsame & _ & Ht2)].
  - destruct Hsame as (Et2 & _ & _ & _ & _ & Es2).
    exists ks. rewrite Et2, Et1, Es2, Es1. repeat split; auto.
    eapply Forall_impl; [exact Hlt|]. intros; simpl in *; lia.
  - destruct Hsame as (Et2 & _ & _ & _ & _ & Es2).
    apply sample_step_ok in Hstep as (_ & -> & _).
    exists (ks ++ [ticks st1]).
    rewrite Et2, Es2, map_app. simpl.
    destruct (_ =? _); simpl; rewrite Et1, Es1, Ht.
    all: split; [reflexivity|]; split.
    all: try (apply Forall_app; split;
              [eapply Forall_impl; [exact Hlt|]; intros; simpl in *; lia
              |constructor; [lia|constructor]]).
    all: clear - Hsorted Hlt Ht1; rewrite Ht1;
      induction Hsorted as [|a ks Hs IH Hf]; simpl;
      [constructor; constructor
      |inversion Hlt; subst; constructor;
       [apply IH; assumption
       |apply Forall_app; split; [exact Hf|constructor; [lia|constructor]]]].
Qed.

Lemma timed_by_clock_exit (l l1 : session) (st st1 : state) (go : bool) :
  timed_by_clock w l st ->
  loop_cond w cfg l st = (go, (l1, st1)) ->
  timed_by_clock w l1 st1.
Proof.
  intros (ks & Ht & Hsorted & Hlt) Hc.
  apply loop_cond_spec in Hc as (_ & _ & Hb1 & _ & _ & Ht1).
  destruct Hb1 as (Et1 & _ & _ & _ & _ & Es1).
  exists ks. rewrite Et1, Es1. repeat split; auto.
  eapply Forall_impl; [exact Hlt|]. intros; simpl in *; lia.
Qed.


End Loop.

(** ** What the invariant says about the rows *)

Lemma Sorted_map_mono {A B : Type} (R : A -> A -> Prop) (S : B -> B -> Prop)
  (f : A -> B) (l : list A) :
  (forall a b, R a b -> S (f a) (f b)) ->
  Sorted R l -> Sorted S (map f l).
Proof.
  intros Hf Hs. induction Hs as [|a l Hs IH Hhd]; simpl; constructor; [exact IH|].
  destruct Hhd; simpl; constructor. now apply Hf.
Qed.

Lemma rep_index_pos (cfg : config) (t : Q) :
  (0 < duration_per_rep cfg)%Q ->
  rep_index cfg t
  = Z.min (Qfloor (t / duration_per_rep cfg) + 1) (repetitions cfg).
Proof.
  intros Hd. unfold rep_index. now rewrite (repetition_for_pos _ _ _ Hd).
Qed.

Lemma rep_index_mono (cfg : config) (t t' : Q) :
  (0 < duration_per_rep cfg)%Q -> (t <= t')%Q ->
  rep_index cfg t <= rep_index cfg t'.
Proof.
  intros Hd Hle. rewrite !rep_index_pos by assumption.
  pose proof (Qfloor_resp_le _ _ (Qdiv_le_mono _ _ _ Hd Hle)). lia.
Qed.

Lemma buffered_projections (l : session) :
  length (emg1 l) = length (timestamps l) ->
  length (emg2 l) = length (timestamps l) ->
  map sample_time (buffered l) = timestamps l
  /\ map (fun x : sample => snd (fst x)) (buffered l) = emg1 l
  /\ map (fun x : sample => snd x) (buffered l) = emg2 l
  /\ length (buffered l) = length (timestamps l).
Proof.
  unfold buffered, sample_time.
  generalize (timestamps l) (emg1 l) (emg2 l). intros ts.
  induction ts as [|t ts IH]; intros [|a e1] [|b e2] H1 H2;
    simpl in *; try discriminate; [repeat split|].
  destruct (IH e1 e2) as (Ha & Hb & Hc & Hd); [congruence|congruence|].
  repeat split; congruence.
Qed.

(** The rows are the buffered samples, one row per sample and in the
    same order. *)
Lemma session_inv_rows (cfg : config) (l : session) (announced : list Z) :
  session_inv cfg l announced ->
  buffers_aligned l
  /\ map ms (rows l) = map (fun t => PyFloat.to_int (t * 1000)) (timestamps l)
  /\ map adc_ch1 (rows l) = emg1 l
  /\ map adc_ch2 (rows l) = emg2 l
  /\ map rep (rows l) = map (rep_index cfg) (timestamps l)
  /\ Forall calibrated (rows l).
Proof.
  intros (H1 & H2 & Hrows & _ & _).
  destruct (buffered_projections l H1 H2) as (Pt & P1 & P2 & Pl).
  unfold buffers_aligned. rewrite Hrows, !length_map, Pl.
  split; [auto|].
  rewrite <- Pt at 1. rewrite <- P1 at 1. rewrite <- P2 at 1.
  rewrite <- Pt at 1.
  rewrite !map_map.
  repeat split; try (apply map_ext; intros [[t a] b]; reflexivity).
  apply Forall_map. apply Forall_forall. intros [[t a] b] _. split; reflexivity.
Qed.

Lemma sorted_rows (cfg : config) (l : session) (announced : list Z) :
  session_inv cfg l announced ->
  Sorted Qle (timestamps l) ->
  Sorted Z.le (map ms (rows l))
  /\ ((0 < duration_per_rep cfg)%Q -> Sorted Z.le (map rep (rows l))).
Proof.
  intros Hinv Hs.
  destruct (session_inv_rows _ _ _ Hinv) as (_ & -> & _ & _ & -> & _).
  split.
  - eapply Sorted_map_mono; [|exact Hs].
    intros a b Hab. apply to_int_mono.
    apply Qmult_le_compat_r; [exact Hab|]. unfold Qle; simpl; lia.
  - intros Hd. eapply Sorted_map_mono; [|exact Hs].
    intros a b Hab. now apply rep_index_mono.
Qed.

(** ** The start of a session *)

Lemma start_session_spec (w : world) (g : string) (st : state) :
  let l0 := fst (start_session w g st) in
  let st0 := snd (start_session w g st) in
  l0 = new_session (clock w (ticks st))
  /\ out st0 = out st ++ [MsgGesture g; MsgMeaning (dict_get GESTURES g "N/A");
                          MsgPrompt g; MsgStarting g; MsgRecordingRep 1]
  /\ ticks st0 = S (ticks st)
  /\ files st0 = files st /\ dirs st0 = dirs st
  /\ open_figures st0 = S (open_figures st)
  /\ port_open st0 = port_open st.
Proof.
  unfold start_session, time_time. cbv beta iota zeta. cbn [fst snd].
  state_proj. rewrite <- !app_assoc. repeat split.
Qed.

Lemma loop_inv_start (w : world) (cfg : config) (g : string) (st : state) :
  let l0 := fst (start_session w g st) in
  let st0 := snd (start_session w g st) in
  loop_inv cfg (clock w (ticks st)) (rep_notifications (out st0)) l0 st0
  /\ timed_by_clock w l0 st0.
Proof.
  intros l0 st0.
  destruct (start_session_spec w g st) as (El & _).
  fold l0 in El. split.
  - split; [now rewrite El|]. exists []. rewrite app_nil_r, El.
    split; [reflexivity|apply session_inv_new].
  - exists []. rewrite El. repeat split; constructor.
Qed.

(** The invariants hold after every iteration and when the loop ends. *)
Lemma after_iterations_inv (w : world) (cfg : config) (g : string) (st : state)
  (k : nat) (l : session) (st' : state) :
  let l0 := fst (start_session w g st) in
  let st0 := snd (start_session w g st) in
  after_iterations k w cfg l0 st0 = Some (l, st') ->
  loop_inv cfg (clock w (ticks st)) (rep_notifications (out st0)) l st'
  /\ timed_by_clock w l st'.
Proof.
  intros l0 st0 H.
  eapply (after_iterations_ind w cfg
            (fun l s => loop_inv cfg (clock w (ticks st))
                          (rep_notifications (out st0)) l s
                        /\ timed_by_clock w l s));
    [|apply loop_inv_start|exact H].
  intros l1 s1 l2 s2 l3 s3 [Hi Ht] Hc Hb. split.
  - eapply loop_inv_step; eassumption.
  - eapply timed_by_clock_step; eassumption.
Qed.

Lemma acquire_inv (w : world) (cfg : config) (g : string) (st : state)
  (fuel : nat) (l : session) (st' : state) :
  let l0 := fst (start_session w g st) in
  let st0 := snd (start_session w g st) in
  acquire fuel w cfg l0 st0 = Some (l, st') ->
  loop_inv cfg (clock w (ticks st)) (rep_notifications (out st0)) l st'
  /\ timed_by_clock w l st'.
Proof.
  intros l0 st0 H.
  destruct (acquire_after_iterations _ _ _ _ _ _ _ H) as (k & l2 & st2 & _ & Hk & He).
  destruct (after_iterations_inv _ _ _ _ _ _ _ Hk) as [Hi Ht].
  split.
  - eapply loop_inv_exit; eassumption.
  - eapply timed_by_clock_exit; eassumption.
Qed.

(** ** Sequences of samples *)

Lemma feed_snoc (cfg : config) (xs : list sample) (x : sample) (l : session) :
  feed cfg (xs ++ [x]) l = on_sample cfg (feed cfg xs l) x.
Proof. unfold feed. now rewrite fold_left_app. Qed.

Lemma feed_inv (cfg : config) (start : Q) (xs : list sample) :
  session_inv cfg (fst (feed cfg xs (new_session start)))
              (rep_notifications (snd (feed cfg xs (new_session start)))).
Proof.
  induction xs as [|x xs IH] using rev_ind; [apply session_inv_new|].
  rewrite feed_snoc. destruct x as [[t ch1] ch2]. unfold on_sample.
  destruct (sample_step cfg t ch1 ch2 _) as [[l' notes]|e] eqn:Hstep; simpl.
  - rewrite rep_notifications_app.
    eapply sample_step_inv; eassumption.
  - rewrite rep_notifications_app. simpl. now rewrite app_nil_r.
Qed.

Lemma feed_step (cfg : config) (start : Q) (xs : list sample) (t : Q) (ch1 ch2 : Z) :
  (0 < duration_per_rep cfg)%Q ->
  let before := feed cfg xs (new_session start) in
  let after := feed cfg (xs ++ [(t, ch1, ch2)]) (new_session start) in
  let r := rep_index cfg t in
  rows (fst after) = rows (fst before) ++ [row_of_sample cfg (t, ch1, ch2)]
  /\ snd after
     = snd before
       ++ (if r =? List.last (map rep (rows (fst before))) 1 then []
           else [MsgRecordingRep r]).
Proof.
  intros Hd before after r. unfold after. rewrite feed_snoc. fold before.
  unfold on_sample.
  destruct (sample_step cfg t ch1 ch2 (fst before)) as [[l' notes]|e] eqn:Hstep.
  - apply sample_step_ok in Hstep as (_ & -> & ->). fold r.
    destruct (feed_inv cfg start xs) as (_ & _ & _ & Hcur & _). fold before in Hcur.
    rewrite <- Hcur. simpl. split; [|reflexivity].
    now destruct (r =? current_rep (fst before)).
  - apply sample_step_raise in Hstep. apply Qeq_bool_iff in Hstep.
    rewrite Hstep in Hd. exfalso. revert Hd. apply Qlt_irrefl.
Qed.

(** With a positive duration every sample of the sequence is buffered. *)
Lemma feed_buffered (cfg : config) (start : Q) (xs : list sample) :
  (0 < duration_per_rep cfg)%Q ->
  buffered (fst (feed cfg xs (new_session start))) = xs.
Proof.
  intros Hd. induction xs as [|x xs IH] using rev_ind; [reflexivity|].
  rewrite feed_snoc. destruct x as [[t ch1] ch2]. unfold on_sample.
  destruct (sample_step cfg t ch1 ch2 _) as [[l' notes]|e] eqn:Hstep.
  - destruct (sample_step_inv _ _ _ _ _ _ _ _ (feed_inv cfg start xs) Hstep)
      as (_ & Hb & _).
    simpl. now rewrite Hb, IH.
  - apply sample_step_raise in Hstep. apply Qeq_bool_iff in Hstep.
    rewrite Hstep in Hd. exfalso. revert Hd. apply Qlt_irrefl.
Qed.

Lemma feed_announces (cfg : config) (start : Q) (xs : list sample) :
  (0 < duration_per_rep cfg)%Q ->
  Sorted Qle (map sample_time xs) ->
  let announced := rep_notifications (snd (feed cfg xs (new_session start))) in
  map rep (rows (fst (feed cfg xs (new_session start))))
  = map (fun x => rep_index cfg (sample_time x)) xs
  /\ announced = transitions 1 (map (fun x => rep_index cfg (sample_time x)) xs)
  /\ Sorted Z.le announced /\ NoDup announced.
Proof.
  intros Hd Hs announced.
  pose proof (feed_inv cfg start xs) as Hinv.
  pose proof (feed_buffered cfg start xs Hd) as Hb.
  destruct (session_inv_rows _ _ _ Hinv) as (_ & _ & _ & _ & Hrep & _).
  destruct Hinv as (H1 & H2 & _ & _ & Hann).
  destruct (buffered_projections _ H1 H2) as (Pt & _).
  rewrite Hb in Pt.
  assert (Hreps : map rep (rows (fst (feed cfg xs (new_session start))))
                  = map (fun x => rep_index cfg (sample_time x)) xs).
  { rewrite Hrep, <- Pt. now rewrite map_map. }
  split; [exact Hreps|].
  fold announced in Hann. rewrite Hreps in Hann.
  split; [exact Hann|]. rewrite Hann.
  assert (Hss : StronglySorted Z.lt
                  (transitions 1 (map (fun x => rep_index cfg (sample_time x)) xs))).
  { apply transitions_sorted. rewrite <- (map_map sample_time (rep_index cfg)).
    eapply Sorted_map_mono; [|exact Hs].
    intros a b Hab. now apply rep_index_mono. }
  split; [now apply StronglySorted_lt_le|now apply StronglySorted_lt_NoDup].
Qed.


(** ** Notifications *)

(** C6.  The repetition changes announced during the loop are exactly
    the index transitions of the rows, in order: a change is announced
    with the sample whose index differs from the index of the sample
    before it (1 before the first).  The same holds of every sequence
    of parsed samples fed to lines 149-165.  When the elapsed times do
    not decrease the announced indices go up, so none is announced
    twice.  In the scenario (three seconds per repetition, two
    repetitions, lines at 0.5 s, 3.5 s and 5.9 s) the samples carry the
    repetitions 1, 2, 2 and the one announcement, of 2, comes with the
    second sample. *)
Theorem repetition_changes_announced_once :
  (forall w cfg fuel g st l' st',
      acquire fuel w cfg (fst (start_session w g st)) (snd (start_session w g st))
      = Some (l', st') ->
      (0 < duration_per_rep cfg)%Q ->
      Sorted Qle (timestamps l') ->
      exists announced,
        rep_notifications (out st')
        = rep_notifications (out (snd (start_session w g st))) ++ announced
        /\ announced = transitions 1 (map rep (rows l'))
        /\ Sorted Z.le announced /\ NoDup announced)
  /\ (forall cfg start xs,
         (0 < duration_per_rep cfg)%Q ->
         Sorted Qle (map sample_time xs) ->
         let announced := rep_notifications (snd (feed cfg xs (new_session start))) in
         map rep (rows (fst (feed cfg xs (new_session start))))
         = map (fun x => rep_index cfg (sample_time x)) xs
         /\ announced
            = transitions 1 (map (fun x => rep_index cfg (sample_time x)) xs)
         /\ Sorted Z.le announced /\ NoDup announced)
  /\ (forall cfg start xs t ch1 ch2,
         (0 < duration_per_rep cfg)%Q ->
         let before := feed cfg xs (new_session start) in
         let after := feed cfg (xs ++ [(t, ch1, ch2)]) (new_session start) in
         snd after
         = snd before
           ++ (if rep_index cfg t =? List.last (map rep (rows (fst before))) 1
               then [] else [MsgRecordingRep (rep_index cfg t)]))
  /\ (map rep (rows (fst (feed scenario_config scenario_samples (new_session 0))))
      = [1; 2; 2]
      /\ snd (feed scenario_config (firstn 1 scenario_samples) (new_session 0)) = []
      /\ snd (feed scenario_config (firstn 2 scenario_samples) (new_session 0))
         = [MsgRecordingRep 2]
      /\ snd (feed scenario_config scenario_samples (new_session 0))
         = [MsgRecordingRep 2])
  /\ (exists l' st',
         acquire 4 scenario_world scenario_config
                 (fst (start_session scenario_world "fist" initial_state))
                 (snd (start_session scenario_world "fist" initial_state))
         = Some (l', st')
         /\ buffered l' = scenario_samples
         /\ map rep (rows l') = [1; 2; 2]
         /\ rep_notifications (out st')
            = rep_notifications
                (out (snd (start_session scenario_world "fist" initial_state)))
              ++ [2]).
Proof.
  split; [|split; [|split; [|split]]].
  - intros w cfg fuel g st l' st' Hacq Hd Hsorted.
    destruct (acquire_inv _ _ _ _ _ _ _ Hacq) as [(_ & ann & Hout & Hinv) _].
    exists ann. split; [exact Hout|].
    destruct (sorted_rows _ _ _ Hinv Hsorted) as [_ Hrep].
    destruct Hinv as (_ & _ & _ & _ & Hann).
    split; [exact Hann|]. rewrite Hann.
    pose proof (transitions_sorted 1 _ (Hrep Hd)) as Hss.
    split; [now apply StronglySorted_lt_le|now apply StronglySorted_lt_NoDup].
  - intros cfg start xs Hd Hs. apply (feed_announces cfg start xs Hd Hs).
  - intros cfg start xs t ch1 ch2 Hd. apply (feed_step cfg start xs t ch1 ch2 Hd).
  - repeat split; vm_compute; reflexivity.
  - vm_compute. do 2 eexists. repeat split.
Qed.

Lemma repetition_changes_announced_once_witness :
  exists l' st' announced,
    acquire 4 scenario_world scenario_config
            (fst (start_session scenario_world "fist" initial_state))
            (snd (start_session scenario_world "fist" initial_state))
    = Some (l', st')
    /\ announced = transitions 1 (map rep (rows l'))
    /\ Sorted Z.le announced.
Proof.
  assert (E : exists l' st',
             acquire 4 scenario_world scenario_config
                     (fst (start_session scenario_world "fist" initial_state))
                     (snd (start_session scenario_world "fist" initial_state))
             = Some (l', st')
             /\ Sorted Qle (timestamps l')).
  { vm_compute. do 2 eexists. split; [reflexivity|].
    repeat constructor; discriminate. }
  destruct E as (l' & st' & E & Hs).
  assert (Hd : (0 < duration_per_rep scenario_config)%Q) by reflexivity.
  destruct (proj1 repetition_changes_announced_once _ _ _ _ _ _ _ E Hd Hs)
    as (ann & _ & Hann & Hsorted & _).
  exists l', st', ann. auto.
Defined.

(** ** The buffers *)



(** ** Termination *)

Section Termination.
Variable w : world.
Variable cfg : config.

(** Every iteration reads the clock, so a clock that reaches the
    total duration ends the loop. *)
Lemma acquire_terminates (N : nat) : forall fuel l st,
  (forall n, (N <= n)%nat ->
             (total_duration cfg <= clock w n - overall_start l)%Q) ->
  (N <= ticks st + fuel)%nat ->
  exists l' st', acquire (S fuel) w cfg l st = Some (l', st').
Proof.
  induction fuel as [|fuel IH]; intros l st Hclock Hfuel;
    rewrite acquire_S;
    destruct (loop_cond w cfg l st) as [[|] [l1 st1]] eqn:Hc; eauto.
  - apply loop_cond_spec in Hc as (Hgo & _).
    symmetry in Hgo. apply ltb_lt in Hgo.
    exfalso. apply (Qlt_not_le _ _ Hgo). apply Hclock. lia.
  - pose proof Hc as Hc'.
    apply loop_cond_spec in Hc' as (_ & _ & (_&_&_&_&_&Es) & _ & _ & Ht).
    destruct (loop_body w cfg l1 st1) as [l2 st2] eqn:Hb. cbn [fst snd].
    pose proof Hb as Hb'.
    apply loop_body_cases in Hb' as (_ & (_&_&_&_&Hticks&_) & _ & Hcase).
    apply IH; [|lia].
    assert (E : overall_start l2 = overall_start l).
    { destruct Hcase as [((_&_&_&_&_&E) & _)
                        |(raw & c1 & c2 & l4 & notes & _ & _ & Hstep & (_&_&_&_&_&E) & _)].
      - congruence.
      - apply sample_step_ok in Hstep as (_ & -> & _). rewrite E. simpl.
        destruct (_ =? _); simpl; congruence. }
    now rewrite E.
Qed.

(** The loop ends at the first test of its condition that measures an
    elapsed time of at least the total duration. *)
Lemma acquire_checks (fuel : nat) : forall l st l' st',
  acquire fuel w cfg l st = Some (l', st') ->
  exists early final,
    checks l' = checks l ++ early ++ [final]
    /\ Forall (fun e => (e < total_duration cfg)%Q) early
    /\ (total_duration cfg <= final)%Q.
Proof.
  induction fuel as [|fuel IH]; intros l st l' st'; [discriminate|].
  rewrite acquire_S.
  destruct (loop_cond w cfg l st) as [[|] [l1 st1]] eqn:Hc.
  - apply loop_cond_spec in Hc as (Hgo & -> & _).
    symmetry in Hgo. apply ltb_lt in Hgo.
    destruct (loop_body w cfg _ st1) as [l2 st2] eqn:Hb. cbn [fst snd].
    apply loop_body_cases in Hb as (Hck & _).
    intros H. destruct (IH _ _ _ _ H) as (early & final & E & Hearly & Hfinal).
    eexists (_ :: early), final. rewrite E, Hck. simpl.
    rewrite <- app_assoc. repeat split; auto.
  - apply loop_cond_spec in Hc as (Hgo & -> & _).
    symmetry in Hgo. apply ltb_ge in Hgo.
    intros [= <- <-]. exists [], (clock w (ticks st) - overall_start l)%Q.
    repeat split; auto.
Qed.


End Termination.

(** A session whose clock reaches the total duration ends, given fuel
    for the tests of the loop condition. *)
Lemma session_ends (w : world) (cfg : config) (g : string) (st : state)
  (N fuel : nat) :
  (forall n, (N <= n)%nat ->
             (total_duration cfg <= clock w n - clock w (ticks st))%Q) ->
  (N < fuel)%nat ->
  exists l' st1,
    acquire fuel w cfg (fst (start_session w g st)) (snd (start_session w g st))
    = Some (l', st1).
Proof.
  intros Hclock Hfuel.
  destruct (start_session_spec w g st) as (El & _ & St & _).
  destruct fuel as [|fuel]; [lia|].
  apply (acquire_terminates w cfg N).
  - rewrite El. exact Hclock.
  - rewrite St. lia.
Qed.


(** ** The export *)

Lemma paths_differ (g : string) : csv_path g <> graph_path g.
Proof. intros H. vm_compute in H. discriminate H. Qed.

(** The state in which the export starts writing. *)
Lemma finish_spec (w : world) (cfg : config) (g : string) (l : session) (st : state) :
  let base := ensure_dirs (print MsgSavingAll (print MsgDone st)) in
  let st1 := print (MsgSavingData (csv_path g))
               (write_file (csv_path g) (CsvFile csv_columns (rows l)) base) in
  let st2 := print (MsgSavedPlot (graph_path g))
               (write_file (graph_path g)
                  (PngFile (timestamps l) (emg1 l) (emg2 l) (total_duration cfg))
                  st1) in
  finish w cfg g l st
  = match rows l with
    | [] => (None, print MsgNoData base)
    | _ :: _ =>
        if csv_fault w (csv_path g) then (Some OSError, base)
        else match timestamps l with
             | [] => (None, st1)
             | _ :: _ =>
                 if png_fault w (graph_path g) then (Some OSError, st1)
                 else (None, st2)
             end
    end.
Proof.
  unfold finish. destruct (rows l); [reflexivity|].
  destruct (csv_fault w (csv_path g)); [reflexivity|].
  destruct (timestamps l) eqn:Et; [reflexivity|].
  destruct (png_fault w (graph_path g)); [reflexivity|].
  cbn [set_line_data line1 line2 fst snd]. now rewrite Et.
Qed.

Lemma record_gesture_spec (fuel : nat) (w : world) (cfg : config) (g : string)
  (st : state) (l' : session) (st1 : state) :
  acquire fuel w cfg (fst (start_session w g st)) (snd (start_session w g st))
  = Some (l', st1) ->
  record_gesture fuel w cfg g st
  = Some (fst (finish w cfg g l' st1),
          set_figures (pred (open_figures (snd (finish w cfg g l' st1))))
                      (snd (finish w cfg g l' st1))).
Proof.
  intros H. unfold record_gesture.
  destruct (start_session w g st) as [l0 st0]. simpl in H. rewrite H.
  now destruct (finish w cfg g l' st1).
Qed.

(** The loop writes no file and leaves figures and port as they are. *)
Lemma acquire_frame (w : world) (cfg : config) (fuel : nat) :
  forall l st l' st',
    acquire fuel w cfg l st = Some (l', st') ->
    same_outside st st' /\ overall_start l' = overall_start l.
Proof.
  intros l st l' st'.
  apply (acquire_ind w cfg
           (fun l1 s1 => same_outside st s1 /\ overall_start l1 = overall_start l)
           (fun l1 s1 => same_outside st s1 /\ overall_start l1 = overall_start l)).
  - intros l1 s1 l2 s2 l3 s3 [Ho Hs] Hc Hb.
    apply loop_cond_spec in Hc as (_ & _ & (_&_&_&_&_&Es) & Ho1 & _).
    apply loop_body_cases in Hb as (_ & Ho2 & _ & Hcase).
    split; [eapply same_outside_trans; [|exact Ho2];
            eapply same_outside_trans; eassumption|].
    destruct Hcase as [((_&_&_&_&_&E) & _)
                      |(raw & c1 & c2 & l4 & notes & _ & _ & Hstep & (_&_&_&_&_&E) & _)].
    + congruence.
    + apply sample_step_ok in Hstep as (_ & -> & _). rewrite E. simpl.
      destruct (_ =? _); simpl; congruence.
  - intros l1 s1 l2 s2 [Ho Hs] Hc.
    apply loop_cond_spec in Hc as (_ & _ & (_&_&_&_&_&Es) & Ho1 & _).
    split; [eapply same_outside_trans; eassumption|congruence].
  - split; [apply same_outside_refl|reflexivity].
Qed.

Lemma rows_timestamps_nonempty (cfg : config) (l : session) (announced : list Z) :
  session_inv cfg l announced -> rows l <> [] -> timestamps l <> [].
Proof.
  intros Hinv Hne Ht.
  destruct (session_inv_rows _ _ _ Hinv) as ((Hl & _ & _) & _).
  rewrite Ht in Hl. destruct (rows l); [congruence|discriminate].
Qed.

(** What a session with rows leaves behind, by fault. *)
Lemma export_outcome (w : world) (cfg : config) (fuel : nat) (g : string)
  (st : state) (l' : session) (st1 : state) :
  acquire fuel w cfg (fst (start_session w g st)) (snd (start_session w g st))
  = Some (l', st1) ->
  rows l' <> [] ->
  let csv := CsvFile csv_columns (rows l') in
  let png := PngFile (timestamps l') (emg1 l') (emg2 l') (total_duration cfg) in
  exists e st',
    record_gesture fuel w cfg g st = Some (e, st')
    /\ open_figures st' = open_figures st
    /\ port_open st' = port_open st
    /\ (e, files st')
       = if csv_fault w (csv_path g) then (Some OSError, files st)
         else if png_fault w (graph_path g)
              then (Some OSError, <[csv_path g := csv]> (files st))
              else (None, <[graph_path g := png]> (<[csv_path g := csv]> (files st))).
Proof.
  intros Hacq Hrows csv png.
  destruct (acquire_inv _ _ _ _ _ _ _ Hacq) as [(_ & ann & _ & Hinv) _].
  pose proof (rows_timestamps_nonempty _ _ _ Hinv Hrows) as Hts.
  destruct (acquire_frame _ _ _ _ _ _ _ Hacq) as [(Hf & _ & Hof & Hpo & _) _].
  destruct (start_session_spec w g st) as (_ & _ & _ & Sf & _ & Sof & Spo).
  rewrite (record_gesture_spec _ _ _ _ _ _ _ Hacq), finish_spec.
  destruct (rows l') as [|r rs]; [congruence|].
  destruct (timestamps l') as [|t ts] eqn:Et; [congruence|].
  destruct (csv_fault w (csv_path g)); [|destruct (png_fault w (graph_path g))];
    do 2 eexists; (split; [reflexivity|]); cbn [fst snd]; state_proj;
    rewrite Hof, Sof, Hpo, Spo, Hf, Sf; repeat split.
Qed.

(** ** The table *)

(** C5.  When a session ends with rows and the table can be written,
    the file holds exactly the rows of the session: as many as the
    samples in the deques, in the same order, each row with the raw
    values of its sample and with the voltages [adc_to_volt] gives for
    them at 3.3 V and 4095.  The session does end once the clock has
    reached the total duration. *)
Theorem table_round_trip (w : world) (cfg : config) (fuel : nat) (g : string)
  (st : state) :
  (forall l' st1,
      acquire fuel w cfg (fst (start_session w g st)) (snd (start_session w g st))
      = Some (l', st1) ->
      rows l' <> [] ->
      csv_fault w (csv_path g) = false ->
      written (record_gesture fuel w cfg g st) (csv_path g)
      = Some (CsvFile csv_columns (rows l'))
      /\ rows l' = map (row_of_sample cfg) (buffered l')
      /\ length (rows l') = length (timestamps l')
      /\ map adc_ch1 (rows l') = emg1 l'
      /\ map adc_ch2 (rows l') = emg2 l'
      /\ Forall (fun r =>
                   volt_ch1 r
                   = adc_to_volt (adc_ch1 r) default_vref default_resolution
                   /\ volt_ch2 r
                      = adc_to_volt (adc_ch2 r) default_vref default_resolution)
                (rows l'))
  /\ (forall N,
        (forall n, (N <= n)%nat ->
                   (total_duration cfg <= clock w n - clock w (ticks st))%Q) ->
        (N < fuel)%nat ->
        exists l' st1,
          acquire fuel w cfg (fst (start_session w g st))
                  (snd (start_session w g st))
          = Some (l', st1)).
Proof.
  split; [|intros N; apply session_ends].
  intros l' st1 Hacq Hrows Hcsv.
  destruct (export_outcome _ _ _ _ _ _ _ Hacq Hrows) as (e & st' & Hrec & _ & _ & Hfiles).
  destruct (acquire_inv _ _ _ _ _ _ _ Hacq) as [(_ & ann & _ & Hinv) _].
  destruct (session_inv_rows _ _ _ Hinv) as ((Hl & _) & _ & H1 & H2 & _ & Hcal).
  split.
  - rewrite Hrec. simpl. rewrite Hcsv in Hfiles.
    destruct (png_fault w (graph_path g)); injection Hfiles as _ ->.
    + apply lookup_insert_eq.
    + rewrite lookup_insert_ne by (intros E; symmetry in E; now apply paths_differ in E).
      apply lookup_insert_eq.
  - repeat split; auto. apply Hinv.
Qed.

Lemma table_round_trip_witness :
  table_of (written (record_gesture 4 scenario_world scenario_config "fist"
                                    initial_state) (csv_path "fist"))
  = map (row_of_sample scenario_config) scenario_samples.
Proof.
  assert (E : exists l' st1,
             acquire 4 scenario_world scenario_config
                     (fst (start_session scenario_world "fist" initial_state))
                     (snd (start_session scenario_world "fist" initial_state))
             = Some (l', st1)
             /\ rows l' <> [] /\ buffered l' = scenario_samples).
  { vm_compute. do 2 eexists. split; [reflexivity|]. split; [discriminate|reflexivity]. }
  destruct E as (l' & st1 & E & Hne & Hb).
  destruct (proj1 (table_round_trip scenario_world scenario_config 4 "fist"
                                    initial_state)
                  l' st1 E Hne eq_refl) as (Hw & Hr & _).
  rewrite Hw. simpl. now rewrite Hr, Hb.
Defined.

(** ** The millisecond column *)

(** C2, as the code has it.  The [ms] of a row is [int(t * 1000)] for
    the elapsed time [t] of its sample: the product truncated toward
    zero, which for [t >= 0] is its floor, not the nearest integer.
    This is the value the table file holds.  The session does end once
    the clock has reached the total duration. *)
Theorem elapsed_ms_is_truncated (w : world) (cfg : config) (fuel : nat) (g : string)
  (st : state) :
  (forall l' st1,
      acquire fuel w cfg (fst (start_session w g st)) (snd (start_session w g st))
      = Some (l', st1) ->
      map ms (rows l') = map (fun t => PyFloat.to_int (t * 1000)) (timestamps l')
      /\ Forall (fun t => (0 <= t)%Q ->
                          (inject_Z (PyFloat.to_int (t * 1000)) <= t * 1000)%Q
                          /\ (t * 1000 < inject_Z (PyFloat.to_int (t * 1000) + 1))%Q)
                (timestamps l')
      /\ (rows l' <> [] -> csv_fault w (csv_path g) = false ->
          map ms (table_of (written (record_gesture fuel w cfg g st) (csv_path g)))
          = map (fun t => PyFloat.to_int (t * 1000)) (timestamps l')))
  /\ (forall N,
        (forall n, (N <= n)%nat ->
                   (total_duration cfg <= clock w n - clock w (ticks st))%Q) ->
        (N < fuel)%nat ->
        exists l' st1,
          acquire fuel w cfg (fst (start_session w g st))
                  (snd (start_session w g st))
          = Some (l', st1)).
Proof.
  split; [|intros N; apply session_ends].
  intros l' st1 Hacq.
  destruct (acquire_inv _ _ _ _ _ _ _ Hacq) as [(_ & ann & _ & Hinv) _].
  destruct (session_inv_rows _ _ _ Hinv) as (_ & Hms & _).
  split; [exact Hms|]. split.
  - apply Forall_forall. intros t _ Ht. apply to_int_floor_bounds.
    apply Qmult_le_0_compat; [exact Ht|]. unfold Qle; simpl; lia.
  - intros Hrows Hcsv.
    destruct (export_outcome _ _ _ _ _ _ _ Hacq Hrows) as (e & st' & Hrec & _ & _ & Hfiles).
    rewrite Hrec. simpl. rewrite Hcsv in Hfiles.
    destruct (png_fault w (graph_path g)); injection Hfiles as _ ->.
    + rewrite lookup_insert_eq. exact Hms.
    + rewrite lookup_insert_ne by (intros E; symmetry in E; now apply paths_differ in E).
      rewrite lookup_insert_eq. exact Hms.
Qed.

Lemma elapsed_ms_is_truncated_witness :
  map ms (table_of (written (record_gesture 2 truncation_world source_config "rest"
                                            initial_state) (csv_path "rest")))
  = [PyFloat.to_int ((1 # 1024) * 1000)].
Proof.
  assert (E : exists l' st1,
             acquire 2 truncation_world source_config
                     (fst (start_session truncation_world "rest" initial_state))
                     (snd (start_session truncation_world "rest" initial_state))
             = Some (l', st1)
             /\ rows l' <> [] /\ timestamps l' = [1 # 1024]%Q).
  { vm_compute. do 2 eexists. split; [reflexivity|]. split; [discriminate|reflexivity]. }
  destruct E as (l' & st1 & E & Hne & Ht).
  destruct (proj1 (elapsed_ms_is_truncated truncation_world source_config 2
                                           "rest" initial_state)
                  l' st1 E) as (_ & _ & Hw).
  rewrite (Hw Hne eq_refl), Ht. reflexivity.
Defined.

(** C2, as the claim has it, fails: the sample read 1/1024 s after the
    start has [elapsed * 1000 = 0.9765625]; the row written for it has
    [ms = 0], and the nearest integer is 1. *)
Lemma elapsed_ms_not_rounded :
  written (record_gesture 2 truncation_world source_config "rest" initial_state)
          (graph_path "rest")
  = Some (PngFile [1 # 1024]%Q [1] [2] 45)
  /\ map ms (table_of (written (record_gesture 2 truncation_world source_config
                                               "rest" initial_state)
                               (csv_path "rest")))
     = [0]
  /\ PyFloat.round ((1 # 1024) * 1000) = 1.
Proof. repeat split; vm_compute; reflexivity. Qed.

(** ** The silent session *)



(** ** Export faults *)






(** * Further properties *)

(** ** [ensure_dirs] *)


(** ** [adc_to_volt] *)




(** ** More on the line parser *)

Module PyStrMore.
Import PyStr PyStrFacts.

Lemma digit_value_nonneg (c : ascii) : is_digit c = true -> 0 <= digit_value c.
Proof.
  unfold is_digit, digit_value. intros H.
  apply andb_true_iff in H as [H _]. apply Nat.leb_le in H. lia.
Qed.

Lemma decimal_from_nonneg (s : string) : forall acc,
  all_digits s = true -> 0 <= acc -> 0 <= decimal_from acc s.
Proof.
  induction s as [|c s IH]; intros acc Hs Hacc; simpl; [exact Hacc|].
  apply andb_true_iff in Hs as [Hc Hs]. apply IH; [exact Hs|].
  pose proof (digit_value_nonneg c Hc). lia.
Qed.

Lemma space_not_digit (c : ascii) : is_space c = true -> is_digit c = false.
Proof.
  intros Hs. destruct (is_digit c) eqn:Hd; [|reflexivity].
  rewrite (digit_not_space c Hd) in Hs. discriminate.
Qed.

Lemma findall_lstrip (s : string) :
  findall_digits (lstrip_by is_space s) = findall_digits s.
Proof.
  induction s as [|c s IH]; [reflexivity|].
  cbn [lstrip_by]. destruct (is_space c) eqn:Hc; [|reflexivity].
  rewrite IH. cbn [findall_digits]. now rewrite (space_not_digit c Hc).
Qed.

Lemma rstrip_starts_with_digit (s : string) :
  starts_with_digit (rstrip_by is_space s) = starts_with_digit s.
Proof.
  destruct s as [|c s]; [reflexivity|].
  cbn [rstrip_by]. destruct (is_space c && is_empty (rstrip_by is_space s)) eqn:E;
    [|reflexivity].
  apply andb_true_iff in E as [Hc _]. simpl. now rewrite (space_not_digit c Hc).
Qed.

Lemma rstrip_empty_no_run (s : string) :
  rstrip_by is_space s = EmptyString -> findall_digits s = [].
Proof.
  induction s as [|c s IH]; [reflexivity|].
  cbn [rstrip_by].
  destruct (is_space c && is_empty (rstrip_by is_space s)) eqn:E; [|discriminate].
  apply andb_true_iff in E as [Hc He]. intros _.
  cbn [findall_digits]. rewrite (space_not_digit c Hc). apply IH.
  now destruct (rstrip_by is_space s).
Qed.

Lemma findall_rstrip (s : string) :
  findall_digits (rstrip_by is_space s) = findall_digits s.
Proof.
  induction s as [|c s IH]; [reflexivity|].
  cbn [rstrip_by].
  destruct (is_space c && is_empty (rstrip_by is_space s)) eqn:E.
  - apply andb_true_iff in E as [Hc He].
    cbn [findall_digits]. rewrite (space_not_digit c Hc).
    symmetry. apply rstrip_empty_no_run. now destruct (rstrip_by is_space s).
  - cbn [findall_digits]. now rewrite IH, rstrip_starts_with_digit.
Qed.

Lemma findall_strip (s : string) :
  findall_digits (strip s) = findall_digits s.
Proof. unfold strip, strip_by. now rewrite findall_rstrip, findall_lstrip. Qed.

Lemma append_inj_l (p a b : string) : (p ++ a = p ++ b)%string -> a = b.
Proof.
  induction p as [|c p IH]; [exact (fun H => H)|].
  intros H. apply IH.
  change (String c (p ++ a) = String c (p ++ b))%string in H. congruence.
Qed.

Lemma append_inj_r (t : string) : forall a b, (a ++ t = b ++ t)%string -> a = b.
Proof.
  assert (Hlen : forall c a, (String c (a ++ t))%string <> t).
  { intros c a E. apply (f_equal String.length) in E.
    change (S (String.length (a ++ t)) = String.length t) in E.
    rewrite length_append in E. lia. }
  induction a as [|c a IH]; intros [|d b] H.
  - reflexivity.
  - exfalso. apply (Hlen d b). symmetry. exact H.
  - exfalso. apply (Hlen c a). exact H.
  - change (String c (a ++ t) = String d (b ++ t))%string in H.
    injection H as -> H. f_equal. now apply IH.
Qed.

End PyStrMore.

(** A parsed pair is the value of the first two digit runs. *)
Lemma parse_ok_runs (line : string) (a b : Z) :
  parse_dual_channel line = Ok (Some a, Some b) ->
  exists r1 r2 rs,
    PyStr.findall_digits line = r1 :: r2 :: rs
    /\ PyStr.all_digits r1 = true /\ PyStr.all_digits r2 = true
    /\ a = PyStr.decimal r1 /\ b = PyStr.decimal r2.
Proof.
  unfold parse_dual_channel, parse_dual_channel_with. intros H.
  destruct (PyStr.findall_digits line) as [|r1 [|r2 rs]] eqn:Hf;
    try (rewrite parse_traced_few_runs in H
           by (rewrite PyStrFacts.count_runs_findall, Hf; simpl; lia);
         discriminate).
  rewrite (parse_traced_two_runs _ _ _ _ _ Hf) in H.
  destruct (_ || _); [discriminate|].
  injection H as <- <-.
  pose proof (PyStrFacts.findall_runs_are_digits line) as Hall.
  rewrite Hf in Hall.
  inversion Hall as [|? ? [Hd1 _] Hall']. subst.
  inversion Hall' as [|? ? [Hd2 _] _]. subst.
  exists r1, r2, rs. auto.
Qed.

Lemma parse_ok_nonneg (line : string) (a b : Z) :
  parse_dual_channel line = Ok (Some a, Some b) -> 0 <= a /\ 0 <= b.
Proof.
  intros H.
  destruct (parse_ok_runs _ _ _ H) as (r1 & r2 & rs & _ & Hd1 & Hd2 & -> & ->).
  split; (apply PyStrMore.decimal_from_nonneg; [assumption|lia]).
Qed.

(** X3.  The parser never returns a negative value: a sign is not part
    of a digit run, so it is dropped, as is the part after a decimal
    point (which is the next run). *)
Theorem parse_dual_channel_nonnegative (line : string) (a b : Z) :
  parse_dual_channel line = Ok (Some a, Some b) ->
  0 <= a /\ 0 <= b
  /\ exists r1 r2 rs,
       PyStr.findall_digits line = r1 :: r2 :: rs
       /\ a = PyStr.decimal r1 /\ b = PyStr.decimal r2.
Proof.
  intros H. destruct (parse_ok_nonneg _ _ _ H) as (Ha & Hb).
  destruct (parse_ok_runs _ _ _ H) as (r1 & r2 & rs & Hf & _ & _ & Ea & Eb).
  split; [exact Ha|]. split; [exact Hb|]. exists r1, r2, rs. auto.
Qed.

Lemma parse_dual_channel_nonnegative_witness :
  parse_dual_channel signed_line = Ok (Some 5, Some 25) /\ 0 <= 5 /\ 0 <= 25.
Proof.
  assert (H : parse_dual_channel signed_line = Ok (Some 5, Some 25))
    by (vm_compute; reflexivity).
  split; [exact H|].
  destruct (parse_dual_channel_nonnegative signed_line 5 25 H) as (Ha & Hb & _).
  split; assumption.
Defined.

(** X4.  White space around a line does not matter to the parser:
    the line gives the same result stripped or not, so the [strip] of
    line 141 only serves the test for an empty line. *)
Theorem parse_dual_channel_strip (line : string) :
  parse_dual_channel (PyStr.strip line) = parse_dual_channel line
  /\ (PyStr.is_empty (PyStr.strip line) = true ->
      parse_dual_channel line = Ok sentinel).
Proof.
  assert (E : parse_dual_channel (PyStr.strip line) = parse_dual_channel line).
  { unfold parse_dual_channel, parse_dual_channel_with, parse_dual_channel_traced.
    now rewrite PyStrMore.findall_strip. }
  split; [exact E|].
  intros H. rewrite <- E. now destruct (PyStr.strip line).
Qed.

Lemma parse_dual_channel_strip_witness :
  parse_dual_channel "     " = Ok sentinel.
Proof.
  apply (parse_dual_channel_strip "     "). reflexivity.
Defined.

(** ** Output paths *)

Lemma csv_path_inj (g g' : string) : csv_path g = csv_path g' -> g = g'.
Proof.
  unfold csv_path, path_join. intros H.
  apply PyStrMore.append_inj_l in H. apply PyStrMore.append_inj_l in H.
  now apply PyStrMore.append_inj_r in H.
Qed.

Lemma graph_path_inj (g g' : string) : graph_path g = graph_path g' -> g = g'.
Proof.
  unfold graph_path, path_join. intros H.
  apply PyStrMore.append_inj_l in H. apply PyStrMore.append_inj_l in H.
  now apply PyStrMore.append_inj_r in H.
Qed.

Lemma csv_not_graph (g g' : string) : csv_path g <> graph_path g'.
Proof. intros H. vm_compute in H. discriminate H. Qed.



(** ** Repetition windows *)

Lemma Qfloor_ge_iff (z : Z) (x : Q) : z <= Qfloor x <-> (inject_Z z <= x)%Q.
Proof.
  split; intros H.
  - eapply Qle_trans; [|apply Qfloor_le]. unfold Qle; simpl; lia.
  - rewrite <- (Qfloor_Z z). now apply Qfloor_resp_le.
Qed.

Lemma Qdiv_ge_iff (a t d : Q) :
  (0 < d)%Q -> (a <= t / d)%Q <-> (a * d <= t)%Q.
Proof.
  intros Hd. split; intros H.
  - assert (E : (t / d * d == t)%Q).
    { field. intros E. rewrite E in Hd. revert Hd. apply Qlt_irrefl. }
    rewrite <- E. apply Qmult_le_compat_r; [exact H|now apply Qlt_le_weak].
  - now apply Qle_shift_div_l.
Qed.

Lemma floor_div_ge_iff (z : Z) (t d : Q) :
  (0 < d)%Q -> z <= Qfloor (t / d) <-> (inject_Z z * d <= t)%Q.
Proof. intros Hd. rewrite Qfloor_ge_iff. now apply Qdiv_ge_iff. Qed.

(** X6.  A sample is tagged with repetition [j], below the last one,
    exactly when its elapsed time lies in the [j]-th window
    [[(j-1) d, j d)]; it is tagged with the last repetition exactly
    from the start of the last window on, however late.  There is no
    clamp from below: a negative elapsed time gives an index of 0 or
    less. *)
Theorem repetition_windows (t d : Q) (reps : Z) :
  (0 < d)%Q -> 1 <= reps ->
  exists r,
    repetition_for t d reps = Ok r
    /\ (forall j, j < reps ->
          (r = j <-> (inject_Z (j - 1) * d <= t)%Q /\ (t < inject_Z j * d)%Q))
    /\ (r = reps <-> (inject_Z (reps - 1) * d <= t)%Q)
    /\ ((t < 0)%Q -> r <= 0).
Proof.
  intros Hd Hreps. eexists. split; [apply repetition_for_pos, Hd|].
  set (f := Qfloor (t / d)).
  assert (Hge : forall z, z <= f <-> (inject_Z z * d <= t)%Q)
    by (intros z; now apply floor_div_ge_iff).
  assert (Hlt : forall z, f < z <-> (t < inject_Z z * d)%Q).
  { intros z. split; intros H.
    - apply Qnot_le_lt. intros Hle. apply Hge in Hle. lia.
    - destruct (Z_lt_le_dec f z) as [|Hzf]; [assumption|].
      apply Hge in Hzf. exfalso. apply (Qlt_not_le _ _ H Hzf). }
  split; [|split].
  - intros j Hj. rewrite <- Hge, <- Hlt. lia.
  - rewrite <- Hge. lia.
  - intros Ht. assert (f < 0); [|lia].
    apply Hlt. now rewrite Qmult_0_l.
Qed.

Lemma repetition_windows_witness :
  repetition_for (100 # 1) 3 15 = Ok 15
  /\ repetition_for (-1 # 2) 3 15 = Ok 0.
Proof.
  assert (Hd : (0 < 3)%Q) by reflexivity.
  assert (Hr : 1 <= 15) by lia.
  split.
  - destruct (repetition_windows (100 # 1) 3 15 Hd Hr) as (r & E & _ & Hlast & _).
    rewrite E. f_equal. apply Hlast. discriminate.
  - destruct (repetition_windows (-1 # 2) 3 15 Hd Hr) as (r & E & Hwin & _).
    rewrite E. f_equal. apply (Hwin 0); [lia|]. split; [discriminate|reflexivity].
Defined.

(** ** Polls and samples *)

Lemma same_buffers_buffered (l l' : session) :
  same_buffers l l' -> buffered l' = buffered l.
Proof. intros (Et & E1 & E2 & _). unfold buffered. now rewrite Et, E1, E2. Qed.

Lemma loop_cond_tick (w : world) (cfg : config) (l l1 : session)
  (st st1 : state) (go : bool) :
  loop_cond w cfg l st = (go, (l1, st1)) ->
  st1 = tick st
  /\ l1 = record_check (clock w (ticks st) - overall_start l) l.
Proof. unfold loop_cond, time_time. now intros [= _ <- <-]. Qed.

(** What an iteration does to the buffers, by what its poll gave. *)
Lemma loop_body_parsed (w : world) (cfg : config) (l l' : session) (st st' : state) :
  loop_body w cfg l st = (l', st') ->
  match parsed_of (port w (polls st)) with
  | None => same_buffers l l'
  | Some (ch1, ch2) =>
      (exists l1 notes,
          sample_step cfg (clock w (ticks st) - overall_start l) ch1 ch2 l
          = Ok (l1, notes)
          /\ same_buffers l1 l')
      \/ (Qeq_bool (duration_per_rep cfg) 0 = true /\ same_buffers l l')
  end.
Proof.
  unfold loop_body, poll_port, parsed_of. cbn [fst snd].
  destruct (port w (polls st)) as [|raw|].
  - intros H. now apply plot_step_frame in H as (Hb & _).
  - destruct (PyStr.is_empty (PyStr.strip raw));
      [intros [= <- <-]; apply same_buffers_refl|].
    destruct (parse_dual_channel (PyStr.strip raw)) as [[[ch1|] [ch2|]]|e];
      try (intros [= <- <-]; apply same_buffers_refl).
    unfold time_time. cbn [fst snd]. rewrite ticks_polled.
    destruct (sample_step cfg _ ch1 ch2 l) as [[l1 notes]|e] eqn:Hstep.
    + intros H. apply plot_step_frame in H as (Hb & _). left. eauto.
    + intros [= <- <-]. right. split; [|apply same_buffers_refl].
      eapply sample_step_raise. exact Hstep.
  - intros [= <- <-]. apply same_buffers_refl.
Qed.

Lemma polls_from_S (w : world) (from n : nat) :
  polls_from w from (S n) = polls_from w from n ++ [port w (from + n)%nat].
Proof. unfold polls_from. now rewrite seq_S, map_app. Qed.

Section ParsedPolls.
Variable w : world.
Variable cfg : config.
Hypothesis duration_nonzero : Qeq_bool (duration_per_rep cfg) 0 = false.
Variable p0 : nat.

Lemma parsed_inv_cond (l l1 : session) (st st1 : state) (go : bool) :
  parsed_inv w cfg p0 l st ->
  loop_cond w cfg l st = (go, (l1, st1)) ->
  parsed_inv w cfg p0 l1 st1.
Proof.
  intros (Hp & (ann & Hinv) & Hmap) Hc.
  pose proof (loop_cond_spec _ _ _ _ _ _ _ Hc) as (_ & _ & Hsame & _).
  apply loop_cond_tick in Hc as (-> & _).
  unfold parsed_inv. rewrite polls_tick, (same_buffers_buffered _ _ Hsame).
  split; [exact Hp|]. split; [|exact Hmap].
  exists ann. eapply session_inv_same; eassumption.
Qed.

Lemma parsed_inv_body (l l' : session) (st st' : state) :
  parsed_inv w cfg p0 l st ->
  loop_body w cfg l st = (l', st') ->
  parsed_inv w cfg p0 l' st'.
Proof.
  intros (Hp & (ann & Hinv) & Hmap) Hb.
  pose proof (loop_body_cases _ _ _ _ _ _ Hb) as (_ & _ & Hpolls & _).
  apply loop_body_parsed in Hb.
  unfold parsed_inv. rewrite Hpolls.
  replace (S (polls st) - p0)%nat with (S (polls st - p0)) by lia.
  rewrite polls_from_S, omap_app.
  replace (p0 + (polls st - p0))%nat with (polls st) by lia.
  split; [lia|].
  assert (Hquiet : same_buffers l l' ->
            (exists announced, session_inv cfg l' announced)
            /\ buffered l' = buffered l).
  { intros Hsame. split; [|now apply same_buffers_buffered].
    exists ann. eapply session_inv_same; eassumption. }
  cbn [omap list_omap].
  destruct (parsed_of (port w (polls st))) as [[ch1 ch2]|].
  - destruct Hb as [(l1 & notes & Hstep & Hsame)|[Hz _]];
      [|rewrite duration_nonzero in Hz; discriminate].
    destruct (sample_step_inv _ _ _ _ _ _ _ _ Hinv Hstep) as (Hinv1 & Hbuf & _).
    split.
    + eexists. eapply session_inv_same; eassumption.
    + rewrite (same_buffers_buffered _ _ Hsame), Hbuf, map_app, Hmap.
      reflexivity.
  - destruct (Hquiet Hb) as (Hex & ->). split; [exact Hex|].
    now rewrite Hmap, app_nil_r.
Qed.

Lemma parsed_inv_acquire (fuel : nat) (l l' : session) (st st' : state) :
  parsed_inv w cfg p0 l st ->
  acquire fuel w cfg l st = Some (l', st') ->
  parsed_inv w cfg p0 l' st'.
Proof.
  apply (acquire_ind w cfg (parsed_inv w cfg p0) (parsed_inv w cfg p0)).
  - intros l1 s1 l2 s2 l3 s3 HP Hc Hb.
    eapply parsed_inv_body; [|exact Hb]. eapply parsed_inv_cond; eassumption.
  - intros l1 s1 l2 s2 HP Hc. eapply parsed_inv_cond; eassumption.
Qed.

End ParsedPolls.

(** X7.  Every poll that gives a non-empty line with two digit runs
    becomes exactly one sample, and nothing else does: at the end of the
    loop the channel values in the buffers are those of the parsed polls
    of the session, in polling order.  Polls that raise, that give
    nothing or that give a rejected line leave no trace in the buffers
    and lose no other sample. *)
Theorem samples_are_parsed_polls (w : world) (cfg : config) (fuel : nat)
  (g : string) (st : state) (l' : session) (st' : state) :
  Qeq_bool (duration_per_rep cfg) 0 = false ->
  acquire fuel w cfg (fst (start_session w g st)) (snd (start_session w g st))
  = Some (l', st') ->
  (polls st <= polls st')%nat
  /\ map channels (buffered l')
     = omap parsed_of (polls_from w (polls st) (polls st' - polls st))
  /\ map (fun r => (adc_ch1 r, adc_ch2 r)) (rows l')
     = omap parsed_of (polls_from w (polls st) (polls st' - polls st)).
Proof.
  intros Hd Hacq.
  assert (Hstart : parsed_inv w cfg (polls st) (fst (start_session w g st))
                              (snd (start_session w g st))).
  { destruct (start_session_spec w g st) as (El & _).
    unfold parsed_inv. rewrite El.
    assert (Ep : polls (snd (start_session w g st)) = polls st).
    { unfold start_session, time_time. cbv beta iota zeta. cbn [fst snd].
      now state_proj. }
    rewrite Ep, Nat.sub_diag. split; [lia|].
    split; [eexists; apply session_inv_new|reflexivity]. }
  destruct (parsed_inv_acquire w cfg Hd _ _ _ _ _ _ Hstart Hacq)
    as (Hp & (ann & Hinv) & Hmap).
  split; [exact Hp|]. split; [exact Hmap|].
  rewrite <- Hmap.
  destruct Hinv as (_ & _ & -> & _). rewrite map_map.
  apply map_ext. intros [[t a] b]. reflexivity.
Qed.

Lemma samples_are_parsed_polls_witness :
  exists l' st',
    acquire 4 scenario_world scenario_config
            (fst (start_session scenario_world "fist" initial_state))
            (snd (start_session scenario_world "fist" initial_state))
    = Some (l', st')
    /\ map channels (buffered l') = [(100, 200); (100, 200); (100, 200)].
Proof.
  assert (E : exists l' st',
             acquire 4 scenario_world scenario_config
                     (fst (start_session scenario_world "fist" initial_state))
                     (snd (start_session scenario_world "fist" initial_state))
             = Some (l', st') /\ polls st' = 3%nat).
  { vm_compute. do 2 eexists. split; reflexivity. }
  destruct E as (l' & st' & E & Hp).
  destruct (samples_are_parsed_polls scenario_world scenario_config 4 "fist"
              initial_state l' st' eq_refl E) as (_ & Hmap & _).
  exists l', st'. split; [exact E|].
  rewrite Hmap, Hp. vm_compute. reflexivity.
Defined.

(** ** The frame of a session *)

(** What the export leaves as it found it, and what it may raise. *)
Lemma finish_frame (w : world) (cfg : config) (g : string) (l : session)
  (st : state) :
  let e := fst (finish w cfg g l st) in
  let st' := snd (finish w cfg g l st) in
  ticks st' = ticks st
  /\ open_figures st' = open_figures st /\ port_open st' = port_open st
  /\ dirs st' = {[SAVE_DIR]} ∪ ({[GRAPH_DIR]} ∪ dirs st)
  /\ gestures_started (out st') = gestures_started (out st)
  /\ (forall p, p <> csv_path g -> p <> graph_path g ->
                files st' !! p = files st !! p)
  /\ (e = None
      \/ e = Some OSError
         /\ (csv_fault w (csv_path g) = true
             \/ png_fault w (graph_path g) = true))
  /\ (csv_fault w (csv_path g) = false ->
      png_fault w (graph_path g) = false -> e = None).
Proof.
  rewrite finish_spec.
  destruct (rows l); [|destruct (csv_fault w (csv_path g)) eqn:Hc;
                        [|destruct (timestamps l);
                          [|destruct (png_fault w (graph_path g)) eqn:Hp]]];
    cbn [fst snd]; state_proj;
    rewrite ?gestures_started_app; simpl; rewrite ?app_nil_r;
    (split; [reflexivity|]); (split; [reflexivity|]); (split; [reflexivity|]);
    (split; [reflexivity|]); (split; [reflexivity|]);
    (split; [intros p H1 H2; now rewrite ?lookup_insert_ne by congruence|]).
  all: split; [auto|]; intros; congruence.
Qed.

Lemma record_gesture_inv (fuel : nat) (w : world) (cfg : config) (g : string)
  (st : state) (e : option exn) (st' : state) :
  record_gesture fuel w cfg g st = Some (e, st') ->
  exists l' st1,
    acquire fuel w cfg (fst (start_session w g st)) (snd (start_session w g st))
    = Some (l', st1)
    /\ e = fst (finish w cfg g l' st1)
    /\ st' = set_figures (pred (open_figures (snd (finish w cfg g l' st1))))
                         (snd (finish w cfg g l' st1)).
Proof.
  unfold record_gesture.
  destruct (start_session w g st) as [l0 st0]. cbn [fst snd].
  destruct (acquire fuel w cfg l0 st0) as [[l' st1]|]; [|discriminate].
  destruct (finish w cfg g l' st1) as [e1 st3] eqn:Hfin. intros [= <- <-].
  exists l', st1. rewrite Hfin. repeat split.
Qed.

(** What a session leaves as it found it. *)
Lemma record_gesture_frame (fuel : nat) (w : world) (cfg : config) (g : string)
  (st : state) (e : option exn) (st' : state) :
  record_gesture fuel w cfg g st = Some (e, st') ->
  open_figures st' = open_figures st /\ port_open st' = port_open st
  /\ (ticks st < ticks st')%nat
  /\ dirs st' = {[SAVE_DIR]} ∪ ({[GRAPH_DIR]} ∪ dirs st)
  /\ gestures_started (out st') = gestures_started (out st) ++ [g]
  /\ (forall p, p <> csv_path g -> p <> graph_path g ->
                files st' !! p = files st !! p)
  /\ (e = None
      \/ e = Some OSError
         /\ (csv_fault w (csv_path g) = true
             \/ png_fault w (graph_path g) = true))
  /\ (csv_fault w (csv_path g) = false ->
      png_fault w (graph_path g) = false -> e = None).
Proof.
  intros H. apply record_gesture_inv in H as (l' & st1 & Hacq & -> & ->).
  destruct (acquire_frame _ _ _ _ _ _ _ Hacq)
    as [(Hf & Hd & Hof & Hpo & Ht & Hg) _].
  destruct (start_session_spec w g st) as (_ & So & St & Sf & Sd & Sof & Spo).
  destruct (finish_frame w cfg g l' st1)
    as (Ft & Fof & Fpo & Fd & Fg & Ff & Fe & Fn).
  state_proj. rewrite Fof, Hof, Sof, Fpo, Hpo, Spo, Ft, Fd, Hd, Sd, Fg, Hg.
  rewrite So, gestures_started_app. simpl.
  do 2 (split; [reflexivity|]). split; [lia|]. do 2 (split; [reflexivity|]).
  split; [|split; assumption].
  intros p H1 H2. now rewrite Ff, Hf, Sf.
Qed.



(** ** The range of the recorded values *)

Lemma clock_mono (w : world) :
  (forall n, (clock w n <= clock w (S n))%Q) ->
  forall a b, (a <= b)%nat -> (clock w a <= clock w b)%Q.
Proof.
  intros Hmono a b Hab. induction Hab as [|b Hab IH]; [apply Qle_refl|].
  eapply Qle_trans; [exact IH|apply Hmono].
Qed.




Section Ranges.
Variable w : world.
Variable cfg : config.
Variable k0 : nat.
Hypothesis clock_never_goes_back : forall n, (clock w n <= clock w (S n))%Q.
Hypothesis duration_positive : (0 < duration_per_rep cfg)%Q.




End Ranges.



(** ** The live plot *)

Lemma sample_step_plot (cfg : config) (t : Q) (ch1 ch2 : Z) (l l' : session)
  (notes : list msg) :
  sample_step cfg t ch1 ch2 l = Ok (l', notes) ->
  line1 l' = line1 l /\ line2 l' = line2 l
  /\ last_plot_time l' = last_plot_time l.
Proof.
  intros H. apply sample_step_ok in H as (_ & -> & _).
  destruct (_ =? _); repeat split.
Qed.

(** An iteration either skips the redraw (an exception or a
    [continue]), or reaches it with the buffers as they were or with
    one more sample. *)
Lemma loop_body_plot (w : world) (cfg : config) (l l' : session) (st st' : state) :
  loop_body w cfg l st = (l', st') ->
  (l' = l /\ draws st' = draws st /\ (ticks st <= ticks st')%nat)
  \/ exists l1 st1,
       plot_step w cfg l1 st1 = (l', st')
       /\ draws st1 = draws st /\ (ticks st <= ticks st1)%nat
       /\ (l1 = l
           \/ exists t ch1 ch2 notes,
                sample_step cfg t ch1 ch2 l = Ok (l1, notes)).
Proof.
  unfold loop_body, poll_port. cbn [fst snd].
  destruct (port w (polls st)) as [|raw|].
  - intros H. right. exists l, (polled st). state_proj. auto.
  - destruct (PyStr.is_empty (PyStr.strip raw));
      [intros [= <- <-]; left; state_proj; auto|].
    destruct (parse_dual_channel (PyStr.strip raw)) as [[[ch1|] [ch2|]]|e];
      try (intros [= <- <-]; left; state_proj; auto).
    unfold time_time. cbn [fst snd].
    destruct (sample_step cfg _ ch1 ch2 l) as [[l1 notes]|e] eqn:Hstep.
    + intros H. right. exists l1, (print_all notes (tick (polled st))).
      destruct (print_all_frame notes (tick (polled st))) as (Pt & _ & Pd & _).
      rewrite Pt, Pd. state_proj.
      split; [exact H|]. split; [reflexivity|]. split; [lia|].
      right. eauto.
    + intros [= <- <-]. left. state_proj. auto.
  - intros [= <- <-]. left. state_proj. auto.
Qed.

Lemma geb_ge (a b : Q) : PyFloat.geb a b = true <-> (b <= a)%Q.
Proof. unfold PyFloat.geb. apply Qle_bool_iff. Qed.

Lemma geb_lt (a b : Q) : PyFloat.geb a b = false <-> (a < b)%Q.
Proof.
  unfold PyFloat.geb. split; intros H.
  - apply Qnot_le_lt. intros Hle. apply Qle_bool_iff in Hle. congruence.
  - destruct (Qle_bool b a) eqn:E; [|reflexivity].
    apply Qle_bool_iff in E. exfalso. apply (Qlt_not_le _ _ H E).
Qed.

(** What the redraw does to the lines and to the time of the last
    redraw. *)
Lemma plot_step_cases (w : world) (cfg : config) (l l' : session) (st st' : state) :
  plot_step w cfg l st = (l', st') ->
  let now := clock w (ticks st) in
  ticks st' = S (ticks st)
  /\ ((l' = l /\ draws st' = draws st
       /\ (now - last_plot_time l < plot_update_interval cfg)%Q)
      \/ (draws st' = S (draws st)
          /\ (plot_update_interval cfg <= now - last_plot_time l)%Q
          /\ same_buffers l l'
          /\ (timestamps l = [] /\ line1 l' = line1 l /\ line2 l' = line2 l
              \/ line1 l' = (timestamps l, emg1 l)
                 /\ line2 l' = (timestamps l, emg2 l))
          /\ last_plot_time l'
             = if draw_fault w (draws st) then last_plot_time l else now)).
Proof.
  unfold plot_step, time_time, canvas_draw. cbn [fst snd].
  destruct (PyFloat.geb _ _) eqn:Hg.
  - apply geb_ge in Hg. rewrite draws_tick.
    destruct (draw_fault w (draws st)); intros [= <- <-]; state_proj;
      (split; [reflexivity|]); right;
      (split; [reflexivity|]); (split; [exact Hg|]);
      destruct (timestamps l) eqn:Et; unfold same_buffers; cbn;
      rewrite ?Et; repeat split; auto.
  - apply geb_lt in Hg. intros [= <- <-]. state_proj.
    split; [reflexivity|]. left. auto.
Qed.

Section Plot.
Variable w : world.
Variable cfg : config.

Lemma snapshot_same (l l' : session) :
  snapshot_inv l -> same_buffers l l' ->
  line1 l' = line1 l -> line2 l' = line2 l -> snapshot_inv l'.
Proof.
  intros H (Et & E1 & E2 & _) L1 L2. unfold snapshot_inv.
  now rewrite L1, L2, Et, E1, E2.
Qed.

Lemma snapshot_fresh (l l' : session) (announced : list Z) :
  session_inv cfg l announced -> same_buffers l l' ->
  line1 l' = (timestamps l, emg1 l) -> line2 l' = (timestamps l, emg2 l) ->
  snapshot_inv l'.
Proof.
  intros (H1 & H2 & _) (Et & E1 & E2 & _) L1 L2. unfold snapshot_inv.
  rewrite L1, L2, Et, E1, E2. cbn [fst snd]. repeat split; auto.
Qed.

Lemma snapshot_sample (t : Q) (ch1 ch2 : Z) (l l' : session) (notes : list msg) :
  snapshot_inv l ->
  sample_step cfg t ch1 ch2 l = Ok (l', notes) ->
  snapshot_inv l'.
Proof.
  intros (Hx & Pt & P1 & P2 & Hl1 & Hl2) Hstep.
  destruct (sample_step_plot _ _ _ _ _ _ _ Hstep) as (L1 & L2 & _).
  apply sample_step_ok in Hstep as (_ & -> & _).
  unfold snapshot_inv. rewrite L1, L2.
  assert (E : forall r, timestamps (if r =? current_rep l then l
                                    else set_current_rep r l) = timestamps l
                        /\ emg1 (if r =? current_rep l then l
                                 else set_current_rep r l) = emg1 l
                        /\ emg2 (if r =? current_rep l then l
                                 else set_current_rep r l) = emg2 l)
    by (intros r; destruct (r =? current_rep l); repeat split).
  destruct (E (rep_index cfg t)) as (Et & E1 & E2).
  cbn [append_sample timestamps emg1 emg2]. rewrite Et, E1, E2.
  repeat split; auto; now apply prefix_app_r.
Qed.

Lemma plot_inv_plot_step (l l' : session) (st st' : state) :
  plot_inv cfg l -> plot_step w cfg l st = (l', st') -> plot_inv cfg l'.
Proof.
  intros (Hsnap & ann & Hinv) H.
  apply plot_step_cases in H as (_ & [(-> & _)|(_ & _ & Hsame & Hlines & _)]).
  - split; [exact Hsnap|eauto].
  - split; [|exists ann; eapply session_inv_same; eassumption].
    destruct Hlines as [(_ & L1 & L2)|(L1 & L2)].
    + eapply snapshot_same; eassumption.
    + eapply snapshot_fresh; eassumption.
Qed.

Lemma plot_inv_body (l l' : session) (st st' : state) :
  plot_inv cfg l -> loop_body w cfg l st = (l', st') -> plot_inv cfg l'.
Proof.
  intros Hinv Hb.
  apply loop_body_plot in Hb
    as [(-> & _)|(l1 & st1 & Hplot & _ & _ & [->|(t & c1 & c2 & notes & Hstep)])].
  - exact Hinv.
  - eapply plot_inv_plot_step; eassumption.
  - eapply plot_inv_plot_step; [|exact Hplot].
    destruct Hinv as (Hsnap & ann & Hinv). split.
    + eapply snapshot_sample; eassumption.
    + eexists. eapply sample_step_inv; eassumption.
Qed.

Lemma plot_inv_cond (l l1 : session) (st st1 : state) (go : bool) :
  plot_inv cfg l -> loop_cond w cfg l st = (go, (l1, st1)) -> plot_inv cfg l1.
Proof.
  intros (Hsnap & ann & Hinv) Hc.
  pose proof (loop_cond_spec _ _ _ _ _ _ _ Hc) as (_ & _ & Hsame & _).
  apply loop_cond_tick in Hc as (_ & ->).
  split; [|exists ann; eapply session_inv_same; eassumption].
  eapply snapshot_same; [exact Hsnap|exact Hsame| |]; reflexivity.
Qed.

End Plot.

(** X10.  After every iteration of the loop, and when it ends, what
    the two plotted lines hold is a snapshot of the buffers: the same
    x values for both lines, as many y values as x values on each, and
    these are the first elements of the three deques (all of them right
    after a redraw with samples).  When the chart is saved the lines
    are set again, so the image shows every sample. *)
Theorem plotted_lines_are_snapshots (w : world) (cfg : config) (g : string)
  (st : state) :
  (forall k l st', 
      after_iterations k w cfg (fst (start_session w g st))
                       (snd (start_session w g st)) = Some (l, st') ->
      snapshot_inv l)
  /\ (forall fuel l' st1,
        acquire fuel w cfg (fst (start_session w g st))
                (snd (start_session w g st)) = Some (l', st1) ->
        snapshot_inv l'
        /\ (rows l' <> [] -> csv_fault w (csv_path g) = false ->
            png_fault w (graph_path g) = false ->
            written (record_gesture fuel w cfg g st) (graph_path g)
            = Some (PngFile (timestamps l') (emg1 l') (emg2 l')
                            (total_duration cfg)))).
Proof.
  assert (Hstart : plot_inv cfg (fst (start_session w g st))).
  { destruct (start_session_spec w g st) as (-> & _). split.
    - unfold snapshot_inv, new_session. cbn. repeat split; auto.
    - eexists. apply session_inv_new. }
  split.
  - intros k l st' Hk.
    refine (proj1 (after_iterations_ind w cfg (fun l _ => plot_inv cfg l)
                     _ k _ _ l st' Hstart Hk)).
    intros l1 s1 l2 s2 l3 s3 HP Hc Hb.
    eapply plot_inv_body; [|exact Hb]. eapply plot_inv_cond; eassumption.
  - intros fuel l' st1 Hacq. split.
    + refine (proj1 (acquire_ind w cfg (fun l _ => plot_inv cfg l)
                       (fun l _ => plot_inv cfg l) _ _ fuel _ _ l' st1
                       Hstart Hacq)).
      * intros l1 s1 l2 s2 l3 s3 HP Hc Hb.
        eapply plot_inv_body; [|exact Hb]. eapply plot_inv_cond; eassumption.
      * intros l1 s1 l2 s2 HP Hc. eapply plot_inv_cond; eassumption.
    + intros Hrows Hcsv Hpng.
      destruct (export_outcome _ _ _ _ _ _ _ Hacq Hrows)
        as (e & st' & Hrec & _ & _ & Hfiles).
      rewrite Hcsv, Hpng in Hfiles. injection Hfiles as _ Hfiles.
      rewrite Hrec. unfold written. rewrite Hfiles.
      apply lookup_insert_eq.
Qed.

Lemma plotted_lines_are_snapshots_witness :
  exists l',
    snapshot_inv l'
    /\ timestamps l' = [2%Q]
    /\ written (record_gesture 3 (run_world (fun _ => false) (fun _ => false))
                               source_config "rest" initial_state)
               (graph_path "rest")
       = Some (PngFile (timestamps l') (emg1 l') (emg2 l')
                       (total_duration source_config)).
Proof.
  assert (E : exists l' st1,
             acquire 3 (run_world (fun _ => false) (fun _ => false)) source_config
               (fst (start_session (run_world (fun _ => false) (fun _ => false))
                                   "rest" initial_state))
               (snd (start_session (run_world (fun _ => false) (fun _ => false))
                                   "rest" initial_state))
             = Some (l', st1)
             /\ timestamps l' = [2%Q] /\ length (rows l') = 1%nat).
  { vm_compute. do 2 eexists. repeat split. }
  destruct E as (l' & st1 & E & Et & Hr).
  destruct (proj2 (plotted_lines_are_snapshots
                     (run_world (fun _ => false) (fun _ => false))
                     source_config "rest" initial_state) 3%nat l' st1 E)
    as (Hsnap & Hw).
  exists l'. split; [exact Hsnap|]. split; [exact Et|].
  apply Hw; [|reflexivity|reflexivity].
  intros H. rewrite H in Hr. discriminate Hr.
Defined.

Section Redraw.
Variable w : world.
Variable cfg : config.
Variable k0 d0 : nat.
Hypothesis no_draw_fault : forall n, draw_fault w n = false.
Hypothesis clock_never_goes_back : forall n, (clock w n <= clock w (S n))%Q.

Lemma redraw_inv_ext (l l1 : session) (st st1 : state) :
  redraw_inv w cfg k0 d0 l st ->
  last_plot_time l1 = last_plot_time l -> draws st1 = draws st ->
  (ticks st <= ticks st1)%nat ->
  redraw_inv w cfg k0 d0 l1 st1.
Proof.
  intros (Hk & H) El Ed Ht. unfold redraw_inv. rewrite El, Ed.
  split; [lia|].
  destruct H as [H|(Hd & (k & Hk' & Ek) & Hle)]; [now left|right].
  split; [exact Hd|]. split; [|exact Hle]. exists k. split; [lia|exact Ek].
Qed.

Lemma redraw_inv_plot_step (l l' : session) (st st' : state) :
  redraw_inv w cfg k0 d0 l st ->
  plot_step w cfg l st = (l', st') ->
  redraw_inv w cfg k0 d0 l' st'.
Proof.
  intros Hinv H.
  apply plot_step_cases in H as (Ht & [(-> & Ed & _)|(Ed & Hge & _ & _ & El)]).
  - eapply redraw_inv_ext; [exact Hinv|reflexivity|exact Ed|lia].
  - rewrite no_draw_fault in El.
    destruct Hinv as (Hk & H). unfold redraw_inv. rewrite Ht, Ed, El.
    split; [lia|]. right.
    assert (Hnow : (clock w k0 <= clock w (ticks st))%Q)
      by now apply clock_mono.
    destruct H as [(E0 & Elast)|(Hd & _ & Hle)].
    + split; [lia|]. split; [exists (ticks st); split; [lia|reflexivity]|].
      rewrite E0. replace (S d0 - d0)%nat with 1%nat by lia.
      change (inject_Z (Z.of_nat 1) - 1)%Q with (1 - 1)%Q.
      apply (Qle_trans _ 0); [apply Qle_lteq; right; ring|].
      rewrite <- (Qplus_opp_r (clock w k0)). now apply Qplus_le_l.
    + split; [lia|]. split; [exists (ticks st); split; [lia|reflexivity]|].
      replace (S (draws st) - d0)%nat with (S (draws st - d0)) by lia.
      rewrite Nat2Z.inj_succ. unfold Z.succ. rewrite inject_Z_plus.
      eapply Qle_trans; [|eapply Qle_trans;
                           [apply (Qplus_le_compat _ _ _ _ Hle Hge)|]];
        apply Qle_lteq; right; ring.
Qed.

Lemma redraw_inv_body (l l' : session) (st st' : state) :
  redraw_inv w cfg k0 d0 l st ->
  loop_body w cfg l st = (l', st') ->
  redraw_inv w cfg k0 d0 l' st'.
Proof.
  intros Hinv Hb.
  apply loop_body_plot in Hb
    as [(-> & Ed & Ht)
       |(l1 & st1 & Hplot & Ed & Ht & [->|(t & c1 & c2 & notes & Hstep)])].
  - eapply redraw_inv_ext; [exact Hinv|reflexivity|exact Ed|exact Ht].
  - eapply redraw_inv_plot_step; [|exact Hplot].
    eapply redraw_inv_ext; [exact Hinv|reflexivity|exact Ed|exact Ht].
  - eapply redraw_inv_plot_step; [|exact Hplot].
    apply sample_step_plot in Hstep as (_ & _ & El).
    eapply redraw_inv_ext; [exact Hinv|exact El|exact Ed|exact Ht].
Qed.

Lemma redraw_inv_cond (l l1 : session) (st st1 : state) (go : bool) :
  redraw_inv w cfg k0 d0 l st ->
  loop_cond w cfg l st = (go, (l1, st1)) ->
  redraw_inv w cfg k0 d0 l1 st1.
Proof.
  intros Hinv Hc. apply loop_cond_tick in Hc as (-> & ->).
  eapply redraw_inv_ext; [exact Hinv|reflexivity|apply draws_tick|].
  rewrite ticks_tick. lia.
Qed.

Lemma redraw_inv_acquire (fuel : nat) (l l' : session) (st st' : state) :
  redraw_inv w cfg k0 d0 l st ->
  acquire fuel w cfg l st = Some (l', st') ->
  redraw_inv w cfg k0 d0 l' st'.
Proof.
  apply (acquire_ind w cfg (redraw_inv w cfg k0 d0) (redraw_inv w cfg k0 d0)).
  - intros l1 s1 l2 s2 l3 s3 HP Hc Hb.
    eapply redraw_inv_body; [|exact Hb]. eapply redraw_inv_cond; eassumption.
  - intros l1 s1 l2 s2 HP Hc. eapply redraw_inv_cond; eassumption.
Qed.

End Redraw.

(** X11.  The redraws of a session are rate limited.  When drawing
    does not fail and the clock never goes back, a session that made
    [n] redraws lasted at least [n - 1] update intervals, from its
    start to the last test of the loop condition: two redraws are never
    less than an interval apart. *)
Theorem redraws_are_rate_limited (w : world) (cfg : config) (fuel : nat)
  (g : string) (st : state) (l' : session) (st' : state) :
  (forall n, draw_fault w n = false) ->
  (forall n, (clock w n <= clock w (S n))%Q) ->
  acquire fuel w cfg (fst (start_session w g st)) (snd (start_session w g st))
  = Some (l', st') ->
  (draws st <= draws st')%nat
  /\ ((draws st < draws st')%nat ->
      ((inject_Z (Z.of_nat (draws st' - draws st)) - 1) * plot_update_interval cfg
       <= clock w (pred (ticks st')) - clock w (ticks st))%Q).
Proof.
  intros Hdraw Hmono Hacq.
  assert (Hstart : redraw_inv w cfg (ticks st) (draws st)
                              (fst (start_session w g st))
                              (snd (start_session w g st))).
  { destruct (start_session_spec w g st) as (El & _ & St & _).
    unfold redraw_inv. rewrite El, St. split; [lia|]. left.
    split; [|reflexivity].
    unfold start_session, time_time. cbv beta iota zeta. cbn [fst snd].
    now state_proj. }
  destruct (redraw_inv_acquire w cfg _ _ Hdraw Hmono _ _ _ _ _ Hstart Hacq)
    as (Hk & [(Ed & _)|(Hd & (k & Hk' & Ek) & Hle)]).
  - split; lia.
  - split; [lia|]. intros _.
    eapply Qle_trans; [exact Hle|]. rewrite Ek.
    apply Qplus_le_l. apply clock_mono; [exact Hmono|lia].
Qed.

Lemma redraws_are_rate_limited_witness :
  exists l' st',
    acquire 46 steady_world source_config
            (fst (start_session steady_world "fist" initial_state))
            (snd (start_session steady_world "fist" initial_state))
    = Some (l', st')
    /\ (draws initial_state <= draws st')%nat.
Proof.
  assert (E : exists l' st',
             acquire 46 steady_world source_config
                     (fst (start_session steady_world "fist" initial_state))
                     (snd (start_session steady_world "fist" initial_state))
             = Some (l', st')).
  { vm_compute. do 2 eexists. reflexivity. }
  destruct E as (l' & st' & E). exists l', st'. split; [exact E|].
  assert (Hmono : forall n, (clock steady_world n <= clock steady_world (S n))%Q).
  { intros n. unfold steady_world, clock. rewrite <- Zle_Qle. lia. }
  apply (redraws_are_rate_limited steady_world source_config 46 "fist"
           initial_state l' st' (fun _ => eq_refl) Hmono E).
Defined.

(** ** The iterations of the loop *)

Lemma loop_body_draws (w : world) (cfg : config) (l l' : session) (st st' : state) :
  loop_body w cfg l st = (l', st') ->
  (draws st <= draws st' <= S (draws st))%nat.
Proof.
  intros Hb.
  apply loop_body_plot in Hb as [(_ & Ed & _)|(l1 & st1 & Hplot & Ed & _)];
    [lia|].
  apply plot_step_cases in Hplot as (_ & [(_ & Ed' & _)|(Ed' & _)]); lia.
Qed.

Lemma count_inv_step (w : world) (cfg : config) (p0 d0 : nat)
  (l l1 l2 : session) (st st1 st2 : state) :
  count_inv p0 d0 l st ->
  loop_cond w cfg l st = (true, (l1, st1)) ->
  loop_body w cfg l1 st1 = (l2, st2) ->
  count_inv p0 d0 l2 st2.
Proof.
  intros (Hp & Hlen & Hd & Hdp) Hc Hb.
  apply loop_cond_tick in Hc as (-> & ->).
  pose proof (loop_body_draws _ _ _ _ _ _ Hb) as Hdraws.
  apply loop_body_cases in Hb as (Hck & _ & Hpolls & _).
  rewrite draws_tick in Hdraws. rewrite polls_tick in Hpolls.
  unfold count_inv. rewrite Hck, Hpolls. cbn [record_check checks].
  rewrite length_app, Hlen. simpl. repeat split; lia.
Qed.

(** X12.  The loop ends at the first test of its condition that
    measures an elapsed time of at least the total duration, whatever
    the port delivers and whatever fails inside an iteration: every
    earlier test measured less.  Each iteration polls the port exactly
    once and redraws at most once, so the tests of the condition are
    one more than the polls of the session. *)
Theorem loop_runs_until_timeout (w : world) (cfg : config) (fuel : nat)
  (g : string) (st : state) (l' : session) (st' : state) :
  acquire fuel w cfg (fst (start_session w g st)) (snd (start_session w g st))
  = Some (l', st') ->
  exits_at_first_timeout cfg (checks l')
  /\ (polls st <= polls st')%nat
  /\ length (checks l') = S (polls st' - polls st)
  /\ (draws st <= draws st')%nat
  /\ (draws st' - draws st <= polls st' - polls st)%nat.
Proof.
  intros Hacq.
  destruct (start_session_spec w g st) as (El & _).
  split.
  - destruct (acquire_checks _ _ _ _ _ _ _ Hacq) as (early & final & E & H).
    rewrite El in E. simpl in E. exists early, final. auto.
  - assert (Hstart : count_inv (polls st) (draws st)
                               (fst (start_session w g st))
                               (snd (start_session w g st))).
    { assert (Ep : polls (snd (start_session w g st)) = polls st
                   /\ draws (snd (start_session w g st)) = draws st).
      { unfold start_session, time_time. cbv beta iota zeta. cbn [fst snd].
        now state_proj. }
      destruct Ep as (Ep & Ed). unfold count_inv. rewrite El, Ep, Ed.
      simpl. repeat split; lia. }
    refine (acquire_ind w cfg (count_inv (polls st) (draws st))
              (fun l s => (polls st <= polls s)%nat
                          /\ length (checks l) = S (polls s - polls st)
                          /\ (draws st <= draws s)%nat
                          /\ (draws s - draws st <= polls s - polls st)%nat)
              _ _ fuel _ _ l' st' Hstart Hacq).
    + intros l1 s1 l2 s2 l3 s3. apply count_inv_step.
    + intros l1 s1 l2 s2 (Hp & Hlen & Hd & Hdp) Hc.
      apply loop_cond_tick in Hc as (-> & ->).
      rewrite polls_tick, draws_tick. cbn [record_check checks].
      rewrite length_app, Hlen. simpl. repeat split; lia.
Qed.

Lemma loop_runs_until_timeout_witness :
  exists l' st',
    acquire 4 scenario_world scenario_config
            (fst (start_session scenario_world "fist" initial_state))
            (snd (start_session scenario_world "fist" initial_state))
    = Some (l', st')
    /\ exits_at_first_timeout scenario_config (checks l')
    /\ length (checks l') = S (polls st').
Proof.
  assert (E : exists l' st',
             acquire 4 scenario_world scenario_config
                     (fst (start_session scenario_world "fist" initial_state))
                     (snd (start_session scenario_world "fist" initial_state))
             = Some (l', st')).
  { vm_compute. do 2 eexists. reflexivity. }
  destruct E as (l' & st' & E). exists l', st'. split; [exact E|].
  destruct (loop_runs_until_timeout scenario_world scenario_config 4 "fist"
              initial_state l' st' E) as (Hexit & _ & Hlen & _).
  split; [exact Hexit|]. rewrite Hlen. simpl. now rewrite Nat.sub_0_r.
Defined.

(** ** The run *)


(** What the [for] loop leaves as it found it. *)
Lemma record_all_frame (fuel : nat) (w : world) (cfg : config) :
  forall gs st e st',
    record_all fuel w cfg gs st = Some (e, st') ->
    open_figures st' = open_figures st /\ port_open st' = port_open st
    /\ exists started,
         gestures_started (out st') = gestures_started (out st) ++ started
         /\ started `prefix_of` gs
         /\ (e = None -> started = gs)
         /\ (forall x, e = Some x ->
               x = OSError
               /\ exists g, In g gs
                    /\ (csv_fault w (csv_path g) = true
                        \/ png_fault w (graph_path g) = true))
         /\ (forall p, (forall g, In g started ->
                                  p <> csv_path g /\ p <> graph_path g) ->
                       files st' !! p = files st !! p).
Proof.
  induction gs as [|g gs IH]; intros st e st'; cbn [record_all].
  - intros [= <- <-]. do 2 (split; [reflexivity|]). exists [].
    rewrite app_nil_r. repeat split; auto; discriminate.
  - destruct (record_gesture fuel w cfg g st) as [[[x|] st1]|] eqn:Hrec;
      [| |discriminate];
      destruct (record_gesture_frame _ _ _ _ _ _ _ Hrec)
        as (Hof & Hpo & _ & _ & Hg & Hf & He & _).
    + intros [= <- <-]. do 2 (split; [assumption|]). exists [g].
      split; [exact Hg|]. split; [apply prefix_cons, prefix_nil|].
      split; [discriminate|]. split.
      * intros y [= <-]. destruct He as [He|[He Hfault]]; [discriminate|].
        injection He as ->. split; [reflexivity|].
        exists g. split; [now left|exact Hfault].
      * intros p Hp. apply Hf; apply (Hp g); now left.
    + intros H. apply IH in H
        as (Hof' & Hpo' & started & Hg' & Hpre & Hall & Hexn & Hf').
      split; [congruence|]. split; [congruence|]. exists (g :: started).
      split; [rewrite Hg', Hg, <- app_assoc; reflexivity|].
      split; [now apply prefix_cons|].
      split; [intros He'; now rewrite Hall|]. split.
      * intros y Hy. destruct (Hexn y Hy) as (-> & g' & Hin & Hfault).
        split; [reflexivity|]. exists g'. split; [now right|exact Hfault].
      * intros p Hp. rewrite Hf'.
        -- apply Hf; apply (Hp g); now left.
        -- intros g' Hin. apply Hp. now right.
Qed.

Section SteadyClock.
Variable w : world.
Variable cfg : config.
Variable M : nat.
Variable fuel : nat.
Hypothesis clock_advances :
  forall s n, (s + M <= n)%nat ->
              (total_duration cfg <= clock w n - clock w s)%Q.
Hypothesis enough_fuel : (M <= fuel)%nat.
Hypothesis some_fuel : (0 < fuel)%nat.



End SteadyClock.






(** X15.  A later session does not touch the files of an earlier one:
    the [for] loop over gestures that do not include [g] leaves the
    table and the chart of [g] as they were.  The keys of the catalog
    are distinct, so in a run every session's files survive to the
    end. *)
Theorem later_sessions_keep_files (fuel : nat) (w : world) (cfg : config)
  (g : string) (gs : list string) (st : state) (e : option exn) (st' : state) :
  ~ In g gs ->
  record_all fuel w cfg gs st = Some (e, st') ->
  files st' !! csv_path g = files st !! csv_path g
  /\ files st' !! graph_path g = files st !! graph_path g
  /\ NoDup (map fst GESTURES).
Proof.
  intros Hnotin Hall.
  destruct (record_all_frame _ _ _ _ _ _ _ Hall)
    as (_ & _ & started & _ & (rest & ->) & _ & _ & Hf).
  assert (Hne : forall g', In g' started -> g <> g').
  { intros g' Hin ->. apply Hnotin, in_or_app. now left. }
  split; [|split].
  - apply Hf. intros g' Hin. split.
    + intros H. now apply csv_path_inj, Hne in H.
    + apply csv_not_graph.
  - apply Hf. intros g' Hin. split.
    + intros H. symmetry in H. now apply csv_not_graph in H.
    + intros H. now apply graph_path_inj, Hne in H.
  - apply NoDup_ListNoDup. vm_compute.
    repeat (constructor; [intros H; simpl in H; intuition discriminate|]).
    constructor.
Qed.

Lemma later_sessions_keep_files_witness :
  exists e st',
    record_all 3 (run_world (fun _ => false) (fun _ => false))
               source_config ["fist"; "open"]%string initial_state
    = Some (e, st')
    /\ files st' !! csv_path "rest" = None.
Proof.
  assert (E : exists e st',
             record_all 3 (run_world (fun _ => false) (fun _ => false))
                        source_config ["fist"; "open"]%string initial_state
             = Some (e, st')).
  { vm_compute. do 2 eexists. reflexivity. }
  destruct E as (e & st' & E).
  exists e, st'. split; [exact E|].
  assert (Hnotin : ~ In "rest"%string ["fist"; "open"]%string)
    by (simpl; intros [H|[H|[]]]; discriminate H).
  destruct (later_sessions_keep_files 3 _ source_config "rest"
              ["fist"; "open"]%string initial_state e st' Hnotin E) as (Hc & _).
  exact Hc.
Defined.
